(** * Speed-limit violation checker: a shallow embedding of
      [check_speed_violations.py] and the properties of its core.

    Numbers are IEEE-754 binary64 values ([PrimFloat.float]), which is what a
    Python [float] is.  A Python [int] that takes part in float arithmetic
    (the constants of the text table, JSON integers used as speeds) is
    represented by the float of the same value.  Timestamps stay integers
    ([Z]) and their true division by [1_000_000] is the correctly rounded
    quotient, as in Python.  Strings are sequences of 8-bit code points
    (Latin-1). *)

From Stdlib Require Import ZArith List String Ascii Bool Lia Floats DecimalString.
From Stdlib Require Import Sorted.
From stdpp Require Import gmap strings.
Import ListNotations.

#[local] Set Warnings "-inexact-float".

Local Open Scope string_scope.
Local Open Scope Z_scope.
Local Open Scope list_scope.

(** ** Python results: a value or a raised exception *)

Inductive exn : Type :=
| OverflowError
| LookupFailure (msg : string)
| LoadFailure (msg : string).

Inductive result (A : Type) : Type :=
| Ok (a : A)
| Raise (e : exn).
Arguments Ok {A} a.
Arguments Raise {A} e.

Definition bind {A B : Type} (r : result A) (k : A -> result B) : result B :=
  match r with
  | Ok a => k a
  | Raise e => Raise e
  end.

(** ** Numbers *)

Module PyNum.

(** An integer as an (unnormalised) binary float with exponent 0. *)
Definition Z2SF (z : Z) : spec_float :=
  match z with
  | Z0 => S754_zero false
  | Zpos p => S754_finite false p 0
  | Zneg p => S754_finite true p 0
  end.

(** The binary64 value nearest to [a / b] (ties to even); infinite when the
    quotient is too large. *)
Definition nearest_quotient (a b : Z) : spec_float :=
  SFdiv prec emax (Z2SF a) (Z2SF b).

(** [a / b] on Python ints: correctly rounded, [OverflowError] when the
    result does not fit a float. *)
Definition int_true_div (a b : Z) : result float :=
  match nearest_quotient a b with
  | S754_infinity _ => Raise OverflowError
  | q => Ok (SF2Prim q)
  end.

(** [x] is not NaN. *)
Definition number (x : float) : Prop := PrimFloat.leb x x = true.

(** Python's [>], [<=] on floats. *)
Definition gt (x y : float) : bool := PrimFloat.ltb y x.
Definition le (x y : float) : bool := PrimFloat.leb x y.

(** [n / d] rounded to the nearest integer, ties to even ([0 <= n], [0 < d]). *)
Definition round_half_even (n d : Z) : Z :=
  let q := n / d in
  let r := n mod d in
  match (2 * r ?= d) with
  | Lt => q
  | Gt => q + 1
  | Eq => if Z.even q then q else q + 1
  end.

(** [m * 2^e * 10^6] rounded to an integer, ties to even. *)
Definition scaled6 (m : positive) (e : Z) : Z :=
  if 0 <=? e then Zpos m * 2 ^ e * 10 ^ 6
  else round_half_even (Zpos m * 10 ^ 6) (2 ^ (- e)).

Definition with_sign (s : bool) (x : spec_float) : spec_float :=
  match x with
  | S754_zero _ => S754_zero s
  | S754_infinity _ => S754_infinity s
  | S754_finite _ m e => S754_finite s m e
  | S754_nan => S754_nan
  end.

(** [round(x, 6)] on a float: the decimal rounding of the exact value to six
    places, converted back to the nearest float; NaN and the infinities
    round to themselves and the sign of a zero result is kept. *)
Definition round6 (x : float) : float :=
  match Prim2SF x with
  | S754_finite s m e =>
      SF2Prim (with_sign s (nearest_quotient (scaled6 m e) (10 ^ 6)))
  | _ => x
  end.

Definition string_of_nonneg (z : Z) : string :=
  NilZero.string_of_uint (N.to_uint (Z.to_N z)).

Definition tail (s : string) : string :=
  match s with
  | EmptyString => EmptyString
  | String _ t => t
  end.

(** The decimal text of [d / 10^6] with exactly six fractional digits. *)
Definition fixed6 (d : Z) : string :=
  string_of_nonneg (d / 10 ^ 6) ++ "."
    ++ tail (string_of_nonneg (10 ^ 6 + d mod 10 ^ 6)).

(** [format(x, '.6f')]. *)
Definition format6 (x : float) : string :=
  match Prim2SF x with
  | S754_nan => "nan"
  | S754_infinity s => if s then "-inf" else "inf"
  | S754_zero s => (if s then "-" else "") ++ fixed6 0
  | S754_finite s m e => (if s then "-" else "") ++ fixed6 (scaled6 m e)
  end.

End PyNum.

(** ** Strings *)

Module PyStr.

Definition code (c : ascii) : N := N_of_ascii c.

(** The code points below 256 that [str.strip] removes. *)
Definition is_space (c : ascii) : bool :=
  let n := code c in
  ((9 <=? n) && (n <=? 13) || (28 <=? n) && (n <=? 32)
   || (n =? 133) || (n =? 160))%N.

Definition is_digit (c : ascii) : bool :=
  let n := code c in ((48 <=? n) && (n <=? 57))%N.

Fixpoint lstrip (s : string) : string :=
  match s with
  | EmptyString => EmptyString
  | String c t => if is_space c then lstrip t else s
  end.

(** Removes trailing white space: a character is kept when something
    that is kept follows it or when it is not white space. *)
Fixpoint rstrip (s : string) : string :=
  match s with
  | EmptyString => EmptyString
  | String c t =>
      match rstrip t with
      | EmptyString => if is_space c then EmptyString else String c EmptyString
      | t' => String c t'
      end
  end.

Definition strip (s : string) : string := rstrip (lstrip s).

Definition lower_char (c : ascii) : ascii :=
  let n := code c in
  if ((65 <=? n) && (n <=? 90)
      || (192 <=? n) && (n <=? 222) && negb (n =? 215))%N
  then ascii_of_N (n + 32) else c.

Fixpoint lower (s : string) : string :=
  match s with
  | EmptyString => EmptyString
  | String c t => String (lower_char c) (lower t)
  end.

(** [sub in s]. *)
Fixpoint contains (sub s : string) : bool :=
  if String.prefix sub s then true
  else match s with
       | EmptyString => false
       | String _ t => contains sub t
       end.

(** The longest prefix of digits, and what follows it. *)
Fixpoint span_digits (s : string) : string * string :=
  match s with
  | EmptyString => (EmptyString, EmptyString)
  | String c t =>
      if is_digit c then
        let '(ds, rest) := span_digits t in (String c ds, rest)
      else (EmptyString, s)
  end.

(** A match of [\d+(?:\.\d+)?]: the integer digits and the (possibly
    empty) digits after the point. *)
Record number_token : Type := { int_digits : string; frac_digits : string }.

(** The match that starts at the head of [s], if there is one there: the
    digits, and the digits after a point that follows them when there are
    any. *)
Definition match_number_here (s : string) : option number_token :=
  match span_digits s with
  | (EmptyString, _) => None
  | (ds, rest) =>
      match rest with
      | String c rest' =>
          if Ascii.eqb c "."
          then Some {| int_digits := ds; frac_digits := fst (span_digits rest') |}
          else Some {| int_digits := ds; frac_digits := EmptyString |}
      | EmptyString => Some {| int_digits := ds; frac_digits := EmptyString |}
      end
  end.

(** [re.search(r'(\d+(?:\.\d+)?)', s)]: the leftmost match. *)
Fixpoint search_number (s : string) : option number_token :=
  match match_number_here s with
  | Some tok => Some tok
  | None =>
      match s with
      | EmptyString => None
      | String _ t => search_number t
      end
  end.

Definition digit_value (c : ascii) : Z := Z.of_N (code c) - 48.

Fixpoint digits_value_from (acc : Z) (s : string) : Z :=
  match s with
  | EmptyString => acc
  | String c t => digits_value_from (10 * acc + digit_value c) t
  end.

Definition digits_value (s : string) : Z := digits_value_from 0 s.

(** [float(text)] for the text of a token: the float nearest to the
    decimal number, [inf] when it is too large. *)
Definition float_of_token (tok : number_token) : float :=
  SF2Prim
    (PyNum.nearest_quotient
       (digits_value (int_digits tok ++ frac_digits tok))
       (10 ^ Z.of_nat (String.length (frac_digits tok)))).

End PyStr.

(** ** Values found in the speed-limit index *)

(** A Python value as the index may hold it in a feature. *)
Inductive pyval : Type :=
| VNone
| VBool (b : bool)
| VInt (z : Z)
| VFloat (x : float)
| VStr (s : string).

(** A candidate feature: a dict whose keys may be absent. *)
Record feature : Type := {
  f_maxspeed : option pyval;
  f_highway : option pyval;
  f_name : option pyval;
  f_way_id : option pyval
}.

(** [d.get(key)] and [d.get(key, default)]. *)
Definition get (field : option pyval) : pyval := default VNone field.
Definition get_default (field : option pyval) (d : pyval) : pyval :=
  default d field.

(** The spatial index [OSMSpeedLimitsCache], a class of the module
    [osm_speed_limits_cache], which is not among the sources: its two
    queries are taken as they are called, each returning candidate features
    (an empty list stands for any falsy answer) or raising. *)
Record OSMSpeedLimitsCache : Type := {
  get_speed_limit : float -> float -> Z -> result (list feature);
  get_speed_limit_nearest : float -> float -> float -> result (list feature)
}.

(** ** [parse_speed_limit] *)

Definition text_limits : list (string * option float) :=
  [ ("RS:urban", Some 50%float);
    ("RS:rural", Some 80%float);
    ("RS:trunk", Some 100%float);
    ("RS:motorway", Some 120%float);
    ("urban", Some 50%float);
    ("rural", Some 80%float);
    ("trunk", Some 100%float);
    ("motorway", Some 120%float);
    ("none", None);
    ("walk", Some 5%float) ].

(** [text_limits[key]] when [key in text_limits]. *)
Fixpoint dict_get {V : Type} (d : list (string * V)) (key : string) : option V :=
  match d with
  | [] => None
  | (k, v) :: d' => if String.eqb key k then Some v else dict_get d' key
  end.

Definition mph_factor : float := 1.60934%float.

Definition parse_speed_limit (maxspeed_str : pyval) : option float :=
  match maxspeed_str with
  | VStr EmptyString => None
  | VStr s =>
      let s := PyStr.strip s in
      match dict_get text_limits s with
      | Some r => r
      | None =>
          match PyStr.search_number s with
          | Some tok =>
              let value := PyStr.float_of_token tok in
              if PyStr.contains "mph" (PyStr.lower s)
              then Some (PrimFloat.mul value mph_factor)
              else Some value
          | None => None
          end
      end
  | _ => None
  end.

(** ** [find_speed_limit_for_coordinate] *)

Record speed_limit_info : Type := {
  maxspeed : float;
  maxspeed_raw : pyval;
  highway : pyval;
  name : pyval;
  way_id : pyval
}.

(** The loop over the candidates: the first whose [maxspeed] parses. *)
Fixpoint first_parsed (speed_limits : list feature) : option speed_limit_info :=
  match speed_limits with
  | [] => None
  | limit :: rest =>
      match parse_speed_limit (get (f_maxspeed limit)) with
      | Some v =>
          Some {| maxspeed := v;
                  maxspeed_raw := get (f_maxspeed limit);
                  highway := get_default (f_highway limit) (VStr "unknown");
                  name := get_default (f_name limit) (VStr "");
                  way_id := get (f_way_id limit) |}
      | None => first_parsed rest
      end
  end.

Definition nearest_max_distance : float := 0.001%float.

Definition find_speed_limit_for_coordinate (cache : OSMSpeedLimitsCache)
    (latitude longitude : float) (precision : Z)
    : result (option speed_limit_info) :=
  bind (get_speed_limit cache latitude longitude precision) (fun speed_limits =>
  match first_parsed speed_limits with
  | Some info => Ok (Some info)
  | None =>
      bind (get_speed_limit_nearest cache latitude longitude nearest_max_distance)
        (fun nearest => Ok (first_parsed nearest))
  end).

(** ** Telemetry and violation records *)

(** One element of [dynamicMetadata]; [None] is an absent key. *)
Record entry : Type := {
  timestampUs : option Z;
  latitude : option float;
  longitude : option float;
  displaySpeed : option float;
  altitude : option float;
  compassAngle : option float
}.

Record violation : Type := {
  timestamp_us : Z;
  timestamp_s : float;
  v_latitude : float;
  v_longitude : float;
  speed_kmh : float;
  speed_limit_kmh : float;
  speed_limit_raw : pyval;
  over_speed : float;
  over_speed_percent : float;
  highway_type : pyval;
  road_name : pyval;
  v_way_id : pyval;
  v_altitude : option float;
  compass_angle : option float
}.

(** The module-level variables. *)
Record globals : Type := { start_global : Z; end_global : Z }.

Definition initial_globals : globals := {| start_global := 0; end_global := 0 |}.

(** The local variables of [check_metadata_file_violations] together with
    the module-level ones it assigns.  [resolver_calls] is a ghost variable:
    the coordinates at which [find_speed_limit_for_coordinate] was called,
    in order. *)
Record locals : Type := {
  violations : list violation;
  coordinate_cache : gmap string (option speed_limit_info);
  entry_count : nat;
  current_run_best : option violation;
  glob : globals;
  resolver_calls : list (float * float)
}.

Definition set_glob (g : globals) (st : locals) : locals :=
  {| violations := violations st; coordinate_cache := coordinate_cache st;
     entry_count := entry_count st; current_run_best := current_run_best st;
     glob := g; resolver_calls := resolver_calls st |}.

Definition set_current_run_best (b : option violation) (st : locals) : locals :=
  {| violations := violations st; coordinate_cache := coordinate_cache st;
     entry_count := entry_count st; current_run_best := b; glob := glob st;
     resolver_calls := resolver_calls st |}.

Definition append_violation (v : violation) (st : locals) : locals :=
  {| violations := violations st ++ [v]; coordinate_cache := coordinate_cache st;
     entry_count := entry_count st; current_run_best := current_run_best st;
     glob := glob st; resolver_calls := resolver_calls st |}.

Definition count_entry (st : locals) : locals :=
  {| violations := violations st; coordinate_cache := coordinate_cache st;
     entry_count := S (entry_count st); current_run_best := current_run_best st;
     glob := glob st; resolver_calls := resolver_calls st |}.

Definition store_lookup (key : string) (info : option speed_limit_info)
    (st : locals) : locals :=
  {| violations := violations st;
     coordinate_cache := <[key := info]> (coordinate_cache st);
     entry_count := entry_count st; current_run_best := current_run_best st;
     glob := glob st; resolver_calls := resolver_calls st |}.

Definition log_resolver_call (lat lon : float) (st : locals) : locals :=
  {| violations := violations st; coordinate_cache := coordinate_cache st;
     entry_count := entry_count st; current_run_best := current_run_best st;
     glob := glob st; resolver_calls := resolver_calls st ++ [(lat, lon)] |}.

(** [if current_run_best is not None: violations.append(current_run_best);
    current_run_best = None]. *)
Definition flush_run (st : locals) : locals :=
  match current_run_best st with
  | Some best => set_current_run_best None (append_violation best st)
  | None => st
  end.

(** [f"{round(lat, 6):.6f},{round(lon, 6):.6f}"]. *)
Definition coord_key (lat lon : float) : string :=
  (PyNum.format6 (PyNum.round6 lat) ++ "," ++ PyNum.format6 (PyNum.round6 lon))%string.

Definition us_per_s : Z := 1000000.

(** The violation dict built for an entry over the limit. *)
Definition build_violation (e : entry) (ts_us : Z) (lat lon speed : float)
    (info : speed_limit_info) : result violation :=
  let limit := maxspeed info in
  let over := PrimFloat.sub speed limit in
  bind (if ts_us =? 0 then Ok 0%float else PyNum.int_true_div ts_us us_per_s)
    (fun ts_s =>
  Ok {| timestamp_us := ts_us;
        timestamp_s := ts_s;
        v_latitude := lat;
        v_longitude := lon;
        speed_kmh := speed;
        speed_limit_kmh := limit;
        speed_limit_raw := maxspeed_raw info;
        over_speed := over;
        over_speed_percent :=
          if PyNum.gt limit 0
          then PrimFloat.mul (PrimFloat.div over limit) 100
          else 0%float;
        highway_type := highway info;
        road_name := name info;
        v_way_id := way_id info;
        v_altitude := altitude e;
        compass_angle := compassAngle e |}).

(** ** [check_metadata_file_violations] *)

(** What one iteration of the loop ends in: the next state, or an exception
    raised in the state reached so far. *)
Inductive step_outcome : Type :=
| Next (st : locals)
| Stop (e : exn) (st : locals).

(** [if start_global == 0: start_global = ts_us] and [end_global = ts_us]. *)
Definition track_globals (ts_us : Z) (g : globals) : globals :=
  {| start_global := if start_global g =? 0 then ts_us else start_global g;
     end_global := ts_us |}.

(** [if current_run_best is None or violation['over_speed'] >
    current_run_best['over_speed']: current_run_best = violation]. *)
Definition keep_best (v : violation) (st : locals) : locals :=
  match current_run_best st with
  | None => set_current_run_best (Some v) st
  | Some best =>
      if PyNum.gt (over_speed v) (over_speed best)
      then set_current_run_best (Some v) st
      else st
  end.

(** The rest of the loop body once [speed_limit_info] is known. *)
Definition judge_entry (violation_threshold : float) (e : entry) (ts_us : Z)
    (lat lon speed : float) (speed_limit_info : option speed_limit_info)
    (st : locals) : step_outcome :=
  match speed_limit_info with
  | None => Next (flush_run st)
  | Some info =>
      if PyNum.gt speed (PrimFloat.add (maxspeed info) violation_threshold)
      then
        match build_violation e ts_us lat lon speed info with
        | Raise ex => Stop ex st
        | Ok v => Next (keep_best v st)
        end
      else Next (flush_run st)
  end.

(** The body of [for entry in data['dynamicMetadata']]. *)
Definition loop_body (cache : OSMSpeedLimitsCache) (violation_threshold : float)
    (st : locals) (e : entry) : step_outcome :=
  let ts_us := default 0 (timestampUs e) in
  let st := set_glob (track_globals ts_us (glob st)) st in
  match latitude e, longitude e with
  | Some lat, Some lon =>
      match displaySpeed e with
      | None => Next (flush_run st)
      | Some speed =>
          let st := count_entry st in
          if PyNum.le speed 0 then Next (flush_run st)
          else
            let key := coord_key lat lon in
            match coordinate_cache st !! key with
            | None =>
                let st := log_resolver_call lat lon st in
                match find_speed_limit_for_coordinate cache lat lon 6 with
                | Raise ex => Stop ex st
                | Ok info =>
                    judge_entry violation_threshold e ts_us lat lon speed info
                      (store_lookup key info st)
                end
            | Some info =>
                judge_entry violation_threshold e ts_us lat lon speed info st
            end
      end
  | _, _ => Next (flush_run st)
  end.

(** The [for] loop. *)
Fixpoint run_loop (cache : OSMSpeedLimitsCache) (violation_threshold : float)
    (st : locals) (entries : list entry) : step_outcome :=
  match entries with
  | [] => Next st
  | e :: rest =>
      match loop_body cache violation_threshold st e with
      | Next st' => run_loop cache violation_threshold st' rest
      | Stop ex st' => Stop ex st'
      end
  end.

(** A metadata file: its name and what [json.load] gives, which is an
    exception or a dict with or without the key [dynamicMetadata]. *)
Record metadata_file : Type := {
  file_name : string;
  content : result (option (list entry))
}.

(** The line the function prints last. *)
Inductive report : Type :=
| WarningNoDynamicMetadata
| Processed (entries segments : nat)
| ErrorProcessing (e : exn).

(** What the caller and the process see once the function has returned:
    the function has no exceptional exit.  [calls] is the ghost log. *)
Record check_outcome : Type := {
  returned : list violation;
  printed : report;
  globals_after : globals;
  calls : list (float * float)
}.

Definition fresh_locals (g : globals) : locals :=
  {| violations := []; coordinate_cache := ∅; entry_count := 0%nat;
     current_run_best := None; glob := g; resolver_calls := [] |}.

Definition check_metadata_file_violations (metadata : metadata_file)
    (cache : OSMSpeedLimitsCache) (violation_threshold : float) (g : globals)
    : check_outcome :=
  match content metadata with
  | Raise ex =>
      {| returned := []; printed := ErrorProcessing ex; globals_after := g;
         calls := [] |}
  | Ok None =>
      {| returned := []; printed := WarningNoDynamicMetadata; globals_after := g;
         calls := [] |}
  | Ok (Some entries) =>
      match run_loop cache violation_threshold (fresh_locals g) entries with
      | Next st =>
          let st := flush_run st in
          {| returned := violations st;
             printed := Processed (entry_count st) (List.length (violations st));
             globals_after := glob st;
             calls := resolver_calls st |}
      | Stop ex st =>
          {| returned := violations st;
             printed := ErrorProcessing ex;
             globals_after := glob st;
             calls := resolver_calls st |}
      end
  end.

(** ** [export_violations_to_json] *)

Record timeline_event : Type := {
  timestamp : float;
  ev_latitude : float;
  ev_longitude : float;
  speed_limit : float;
  current_speed : float;
  detected_violation : Z
}.

(** The dict handed to [json.dump]. *)
Record timeline_document : Type := {
  doc_id : string;
  start_time : Z;
  end_time : float;
  score : Z;
  list_of_timeline_events : list timeline_event
}.

(** [sorted(violations, key=timestamp_us)]: a stable sort. *)
Fixpoint insert_by_timestamp (v : violation) (l : list violation) : list violation :=
  match l with
  | [] => [v]
  | w :: l' =>
      if timestamp_us v <=? timestamp_us w then v :: l
      else w :: insert_by_timestamp v l'
  end.

Fixpoint sorted_by_timestamp (l : list violation) : list violation :=
  match l with
  | [] => []
  | v :: l' => insert_by_timestamp v (sorted_by_timestamp l')
  end.

Definition timeline_event_of (v : violation) : result timeline_event :=
  bind (PyNum.int_true_div (timestamp_us v) us_per_s) (fun ts =>
  Ok {| timestamp := ts;
        ev_latitude := v_latitude v;
        ev_longitude := v_longitude v;
        speed_limit := speed_limit_kmh v;
        current_speed := speed_kmh v;
        detected_violation := 3 |}).

Fixpoint timeline_events (l : list violation) : result (list timeline_event) :=
  match l with
  | [] => Ok []
  | v :: l' =>
      bind (timeline_event_of v) (fun ev =>
      bind (timeline_events l') (fun evs => Ok (ev :: evs)))
  end.

(** The document written to [output_file]. *)
Definition export_violations_to_json (violations : list violation)
    (file_id : string) (g : globals) : result timeline_document :=
  let sorted_violations := sorted_by_timestamp violations in
  bind (PyNum.int_true_div (end_global g) us_per_s) (fun end_time =>
  bind (timeline_events sorted_violations) (fun events =>
  Ok {| doc_id := file_id;
        start_time := 0;
        end_time := end_time;
        score := 0;
        list_of_timeline_events := events |})).

(** ** The loop of [main] over the metadata files *)

(** One file: the check, then the export under the file's stem. *)
Definition process_file (cache : OSMSpeedLimitsCache) (violation_threshold : float)
    (f : metadata_file) (g : globals) : result timeline_document * globals :=
  let out := check_metadata_file_violations f cache violation_threshold g in
  (export_violations_to_json (returned out) (file_name f) (globals_after out),
   globals_after out).

(** The documents written for the files, in order; an exception of the
    export ends the batch. *)
Fixpoint main_loop (cache : OSMSpeedLimitsCache) (violation_threshold : float)
    (files : list metadata_file) (g : globals) : result (list timeline_document) :=
  match files with
  | [] => Ok []
  | f :: rest =>
      let '(doc, g') := process_file cache violation_threshold f g in
      bind doc (fun d =>
      bind (main_loop cache violation_threshold rest g') (fun ds => Ok (d :: ds)))
  end.

Definition main_violation_threshold : float := 10%float.

(** ** Notions the properties are stated with *)

(** *** Classification of the samples of one pass *)

(** The limit one sample gets in a pass whose cache is [cc]: the stored
    result on a hit, the resolver's (then stored) on a miss. *)
Definition resolve_through_cache (cache : OSMSpeedLimitsCache)
    (cc : gmap string (option speed_limit_info)) (lat lon : float)
    : result (option speed_limit_info * gmap string (option speed_limit_info)) :=
  match cc !! coord_key lat lon with
  | Some info => Ok (info, cc)
  | None =>
      bind (find_speed_limit_for_coordinate cache lat lon 6) (fun info =>
      Ok (info, <[coord_key lat lon := info]> cc))
  end.

(** The verdict on one sample: [Some v] when it is violating (a limit was
    resolved and the speed exceeds limit plus threshold), with the record [v]
    built for it; [None] when it is not. *)
Definition classify_sample (cache : OSMSpeedLimitsCache) (violation_threshold : float)
    (cc : gmap string (option speed_limit_info)) (e : entry)
    : result (option violation * gmap string (option speed_limit_info)) :=
  match latitude e, longitude e, displaySpeed e with
  | Some lat, Some lon, Some speed =>
      if PyNum.le speed 0 then Ok (None, cc)
      else
        bind (resolve_through_cache cache cc lat lon) (fun '(info, cc') =>
        match info with
        | None => Ok (None, cc')
        | Some i =>
            if PyNum.gt speed (PrimFloat.add (maxspeed i) violation_threshold)
            then
              bind (build_violation e (default 0 (timestampUs e)) lat lon speed i)
                (fun v => Ok (Some v, cc'))
            else Ok (None, cc')
        end)
  | _, _, _ => Ok (None, cc)
  end.

(** The verdicts on the samples of a stream, in order. *)
Fixpoint classify (cache : OSMSpeedLimitsCache) (violation_threshold : float)
    (cc : gmap string (option speed_limit_info)) (entries : list entry)
    : result (list (option violation)) :=
  match entries with
  | [] => Ok []
  | e :: rest =>
      bind (classify_sample cache violation_threshold cc e) (fun '(c, cc') =>
      bind (classify cache violation_threshold cc' rest) (fun cs => Ok (c :: cs)))
  end.

(** *** Runs *)

Definition close_run {A : Type} (cur : list A) : list (list A) :=
  match cur with
  | [] => []
  | _ => [cur]
  end.

(** The maximal contiguous runs of [Some] in a sequence of verdicts, the
    run [cur] being open at its start. *)
Fixpoint runs_from {A : Type} (cur : list A) (cs : list (option A)) : list (list A) :=
  match cs with
  | [] => close_run cur
  | Some a :: cs' => runs_from (cur ++ [a]) cs'
  | None :: cs' => close_run cur ++ runs_from [] cs'
  end.

Definition runs {A : Type} (cs : list (option A)) : list (list A) := runs_from [] cs.

(** The violating samples of a sequence of verdicts. *)
Definition violating {A : Type} (cs : list (option A)) : list A := omap id cs.

Definition lt_over (a b : violation) : Prop :=
  PrimFloat.ltb (over_speed a) (over_speed b) = true.
Definition le_over (a b : violation) : Prop :=
  PrimFloat.leb (over_speed a) (over_speed b) = true.

(** [r] is the record of the run: a sample of the run whose [over_speed] is
    the maximum of the run, and the earliest such. *)
Definition best_of_run (run : list violation) (r : violation) : Prop :=
  exists before after,
    run = before ++ r :: after
    /\ Forall (fun j => lt_over j r) before
    /\ Forall (fun j => le_over j r) after.

(** *** The pass without the cache *)

(** The loop body when the resolver is called directly on every sample. *)
Definition loop_body_direct (cache : OSMSpeedLimitsCache) (violation_threshold : float)
    (st : locals) (e : entry) : step_outcome :=
  let ts_us := default 0 (timestampUs e) in
  let st := set_glob (track_globals ts_us (glob st)) st in
  match latitude e, longitude e with
  | Some lat, Some lon =>
      match displaySpeed e with
      | None => Next (flush_run st)
      | Some speed =>
          let st := count_entry st in
          if PyNum.le speed 0 then Next (flush_run st)
          else
            let st := log_resolver_call lat lon st in
            match find_speed_limit_for_coordinate cache lat lon 6 with
            | Raise ex => Stop ex st
            | Ok info =>
                judge_entry violation_threshold e ts_us lat lon speed info st
            end
      end
  | _, _ => Next (flush_run st)
  end.

Fixpoint run_loop_direct (cache : OSMSpeedLimitsCache) (violation_threshold : float)
    (st : locals) (entries : list entry) : step_outcome :=
  match entries with
  | [] => Next st
  | e :: rest =>
      match loop_body_direct cache violation_threshold st e with
      | Next st' => run_loop_direct cache violation_threshold st' rest
      | Stop ex st' => Stop ex st'
      end
  end.

(** What the pass returns when every sample is resolved directly. *)
Definition returned_direct (cache : OSMSpeedLimitsCache) (violation_threshold : float)
    (g : globals) (entries : list entry) : list violation :=
  match run_loop_direct cache violation_threshold (fresh_locals g) entries with
  | Next st => violations (flush_run st)
  | Stop _ st => violations st
  end.

(** The state an iteration ends in. *)
Definition outcome_state (o : step_outcome) : locals :=
  match o with
  | Next st => st
  | Stop _ st => st
  end.

(** The coordinates of the samples that reach the lookup. *)
Definition lookup_site (e : entry) : option (float * float) :=
  match latitude e, longitude e, displaySpeed e with
  | Some lat, Some lon, Some speed =>
      if PyNum.le speed 0 then None else Some (lat, lon)
  | _, _, _ => None
  end.

Definition key_of (p : float * float) : string := coord_key (fst p) (snd p).

(** The resolver answers alike on the samples of [entries] that share a
    cache key. *)
Definition key_consistent (cache : OSMSpeedLimitsCache) (entries : list entry) : Prop :=
  forall e1 e2 p1 p2,
    In e1 entries -> In e2 entries ->
    lookup_site e1 = Some p1 -> lookup_site e2 = Some p2 ->
    key_of p1 = key_of p2 ->
    find_speed_limit_for_coordinate cache (fst p1) (snd p1) 6
    = find_speed_limit_for_coordinate cache (fst p2) (snd p2) 6.

(** *** Notions used in the proofs *)

(** How an iteration from [st] relates to the verdict on its sample. *)
Inductive step_matches (st : locals)
  : result (option violation * gmap string (option speed_limit_info))
    -> step_outcome -> Prop :=
| Step_raise ex st' :
    violations st' = violations st ->
    step_matches st (Raise ex) (Stop ex st')
| Step_other cc st1 :
    violations st1 = violations st ->
    current_run_best st1 = current_run_best st ->
    coordinate_cache st1 = cc ->
    step_matches st (Ok (None, cc)) (Next (flush_run st1))
| Step_violating v cc st1 :
    violations st1 = violations st ->
    current_run_best st1 = current_run_best st ->
    coordinate_cache st1 = cc ->
    step_matches st (Ok (Some v, cc)) (Next (keep_best v st1)).

(** What the open run and [current_run_best] have to do with each other. *)
Definition open_run (cur : list violation) (best : option violation) : Prop :=
  Forall (fun j => PyNum.number (over_speed j)) cur
  /\ match best with
     | None => cur = []
     | Some b => best_of_run cur b
     end.

(** Every logged call has its key in the cache, and no two logged calls
    share a key. *)
Definition calls_cached (st : locals) : Prop :=
  (forall p, In p (resolver_calls st) ->
             coordinate_cache st !! key_of p <> None)
  /\ List.NoDup (map key_of (resolver_calls st)).

(** Two states that agree on what the pass returns. *)
Definition same_core (a b : locals) : Prop :=
  violations a = violations b /\ current_run_best a = current_run_best b.

Definition outcomes_agree (o1 o2 : step_outcome) : Prop :=
  match o1, o2 with
  | Next a, Next b => same_core a b
  | Stop e1 a, Stop e2 b => e1 = e2 /\ same_core a b
  | _, _ => False
  end.

(** What the cache holds came from a sample of the stream. *)
Definition cache_sound (cache : OSMSpeedLimitsCache) (all_entries : list entry)
    (st : locals) : Prop :=
  forall k r,
    coordinate_cache st !! k = Some r ->
    exists e p,
      In e all_entries /\ lookup_site e = Some p /\ key_of p = k
      /\ find_speed_limit_for_coordinate cache (fst p) (snd p) 6 = Ok r.

(** The same outcome in a state with other module-level variables. *)
Definition map_outcome (f : locals -> locals) (o : step_outcome) : step_outcome :=
  match o with
  | Next st => Next (f st)
  | Stop ex st => Stop ex (f st)
  end.

(** *** Candidates and failures of the index *)

(** The candidate's [maxspeed] does not parse. *)
Definition unparsable (c : feature) : Prop :=
  parse_speed_limit (get (f_maxspeed c)) = None.

(** The limit info made from candidate [c] whose [maxspeed] parses to [v]. *)
Definition info_of (c : feature) (v : float) : speed_limit_info :=
  {| maxspeed := v;
     maxspeed_raw := get (f_maxspeed c);
     highway := get_default (f_highway c) (VStr "unknown");
     name := get_default (f_name c) (VStr "");
     way_id := get (f_way_id c) |}.


(** A query of the index raises [ex] during the lookup at a coordinate:
    the exact query does, or it yields no parsed limit and the nearest query
    does. *)
Definition index_raises (cache : OSMSpeedLimitsCache) (lat lon : float)
    (ex : exn) : Prop :=
  get_speed_limit cache lat lon 6 = Raise ex
  \/ exists candidates,
       get_speed_limit cache lat lon 6 = Ok candidates
       /\ first_parsed candidates = None
       /\ get_speed_limit_nearest cache lat lon 0.001 = Raise ex.




(** *** Text of a speed limit *)

Module TextSpec.

Fixpoint all_chars (P : ascii -> bool) (s : string) : bool :=
  match s with
  | EmptyString => true
  | String c t => P c && all_chars P t
  end.

Definition head_is (P : ascii -> bool) (s : string) : bool :=
  match s with
  | EmptyString => false
  | String c _ => P c
  end.

Fixpoint last_is (P : ascii -> bool) (s : string) : bool :=
  match s with
  | EmptyString => false
  | String c EmptyString => P c
  | String _ t => last_is P t
  end.

(** [t] is [s] without its leading and trailing white space. *)
Definition trimmed (s t : string) : Prop :=
  exists l r,
    s = (l ++ t ++ r)%string
    /\ all_chars PyStr.is_space l = true
    /\ all_chars PyStr.is_space r = true
    /\ head_is PyStr.is_space t = false
    /\ last_is PyStr.is_space t = false.

(** The text of a token. *)
Definition token_text (tok : PyStr.number_token) : string :=
  match PyStr.frac_digits tok with
  | EmptyString => PyStr.int_digits tok
  | f => (PyStr.int_digits tok ++ "." ++ f)%string
  end.

(** [tok] is the first numeric token of [s]: digits, then possibly a point
    and digits, starting at the first digit of [s] and as long as
    possible. *)
Definition first_numeric_token (s : string) (tok : PyStr.number_token) : Prop :=
  exists before after,
    s = (before ++ token_text tok ++ after)%string
    /\ all_chars (fun c => negb (PyStr.is_digit c)) before = true
    /\ PyStr.int_digits tok <> EmptyString
    /\ all_chars PyStr.is_digit (PyStr.int_digits tok) = true
    /\ all_chars PyStr.is_digit (PyStr.frac_digits tok) = true
    /\ head_is PyStr.is_digit after = false
    /\ (PyStr.frac_digits tok = EmptyString ->
        forall rest, after = String "."%char rest ->
                     head_is PyStr.is_digit rest = false).

Definition has_no_digit (s : string) : Prop :=
  all_chars (fun c => negb (PyStr.is_digit c)) s = true.

(** [s] contains [mph] in any letter case. *)
Definition mentions_mph (s : string) : Prop :=
  exists a b, PyStr.lower s = (a ++ "mph" ++ b)%string.

(** The text is one of the codes of the table. *)
Definition known_code (s : string) : Prop := In s (map fst text_limits).

End TextSpec.

(** ** Examples used by the properties below *)

Module Examples.

Definition sample (ts : Z) (lat lon speed : float) : entry :=
  {| timestampUs := Some ts; latitude := Some lat; longitude := Some lon;
     displaySpeed := Some speed; altitude := None; compassAngle := None |}.

Definition road (text : string) : feature :=
  {| f_maxspeed := Some (VStr text); f_highway := Some (VStr "primary");
     f_name := None; f_way_id := Some (VInt 7) |}.

(** An index that knows one road with limit 50 everywhere. *)
Definition index50 : OSMSpeedLimitsCache :=
  {| get_speed_limit := fun _ _ _ => Ok [road "50"];
     get_speed_limit_nearest := fun _ _ _ => Ok [] |}.

Definition file (entries : list entry) : metadata_file :=
  {| file_name := "trip"; content := Ok (Some entries) |}.

(** Speeds 55, 65, 70, 70, 40 and 80 where the limit is 50. *)
Definition trip : list entry :=
  [ sample 1000000 44.1 20.4 55; sample 2000000 44.1 20.4 65;
    sample 3000000 44.2 20.4 70; sample 4000000 44.2 20.5 70;
    sample 5000000 44.2 20.5 40; sample 6000000 44.3 20.5 80 ].

(** What the resolver answers with [index50]. *)
Definition info50 : speed_limit_info :=
  {| maxspeed := 50; maxspeed_raw := VStr "50"; highway := VStr "primary";
     name := VStr ""; way_id := VInt 7 |}.

(** A sample without the key [latitude]. *)
Definition no_latitude (ts : Z) : entry :=
  {| timestampUs := Some ts; latitude := None; longitude := Some 20.4%float;
     displaySpeed := Some 90%float; altitude := None; compassAngle := None |}.

(** Speeds 65 and 70, a sample without latitude, then 80 and 75. *)
Definition trip_with_gap : list entry :=
  [ sample 1000000 44.1 20.4 65; sample 2000000 44.1 20.4 70;
    no_latitude 3000000;
    sample 4000000 44.1 20.4 80; sample 5000000 44.1 20.4 75 ].

(** A sample at 60 where the limit is 50 and the threshold 10. *)
Definition at_limit : entry := sample 3000000 44.1 20.4 60.

(** The state after the first two samples of [trip_with_gap]: a run is
    open, its best record is that of the sample at 70. *)
Definition running : locals :=
  outcome_state
    (run_loop index50 10 (fresh_locals initial_globals) (firstn 2 trip_with_gap)).

(** Scenario A: speeds 55, 65, 60 and 40. *)
Definition scenario_a : list entry :=
  [ sample 1000000 44.1 20.4 55; sample 2000000 44.1 20.4 65;
    sample 3000000 44.1 20.4 60; sample 4000000 44.1 20.4 40 ].

(** An index that is unavailable north of latitude 44.25. *)
Definition failing_index : OSMSpeedLimitsCache :=
  {| get_speed_limit := fun lat _ _ =>
       if PrimFloat.ltb 44.25 lat then Raise (LookupFailure "index unavailable")
       else Ok [road "50"];
     get_speed_limit_nearest := fun _ _ _ => Ok [] |}.

(** A closed run (65), an open run (90), then a sample where the index
    fails, then one more sample. *)
Definition trip_failing : list entry :=
  [ sample 1000000 44.1 20.4 65; sample 2000000 44.1 20.4 40;
    sample 3000000 44.2 20.4 90; sample 4000000 44.3 20.4 95;
    sample 5000000 44.1 20.4 99 ].




(** An index whose nearest road changes within one cache key: limit 50
    south of latitude 44.1234563 and limit 130 north of it. *)
Definition drifting_index : OSMSpeedLimitsCache :=
  {| get_speed_limit := fun _ _ _ => Ok [];
     get_speed_limit_nearest := fun lat _ _ =>
       if PrimFloat.ltb lat 44.1234563 then Ok [road "50"] else Ok [road "130"] |}.


(** Two samples whose coordinates share the key [44.123456,20.400000]. *)
Definition trip_drifting : list entry :=
  [ sample 1000000 44.1234561 20.4 100; sample 2000000 44.1234564 20.4 110 ].

(** The same coordinate twice (scenario D). *)
Definition trip_same_place : list entry :=
  [ sample 1000000 44.123456 20.654321 100;
    sample 2000000 44.123456 20.654321 110 ].

(** A violating sample, then one whose timestamp, 10^320 microseconds, is
    too large for a float once in seconds. *)
Definition trip_overflow : list entry :=
  [ sample 1000000 44.1 20.4 65; sample (10 ^ 320) 44.1 20.4 70 ].

(** A file with an empty [dynamicMetadata]. *)
Definition empty_file : metadata_file :=
  {| file_name := "empty"; content := Ok (Some []) |}.

End Examples.

(** * The rest of the module *)

(** ** File names *)

Module PyPath.

(** [name.endswith(suffix)]. *)
Definition endswith (name suffix : string) : bool :=
  let n := String.length name in
  let m := String.length suffix in
  if (m <=? n)%nat then String.eqb (substring (n - m) m name) suffix else false.

(** The index of the last dot of [s], whose first character has index [i];
    [found] when [s] has no dot. *)
Fixpoint rfind_dot_from (i : nat) (s : string) (found : option nat) : option nat :=
  match s with
  | EmptyString => found
  | String c t =>
      rfind_dot_from (S i) t (if Ascii.eqb c "." then Some i else found)
  end.

(** [name.rfind('.')], [None] for -1. *)
Definition rfind_dot (name : string) : option nat := rfind_dot_from 0 name None.

(** [Path(name).stem] as [pathlib] computes it (CPython 3.8 to 3.13): the
    name up to its last dot, or the whole name when it has no dot or when
    that dot is its first or its last character. *)
Definition stem (name : string) : string :=
  match rfind_dot name with
  | Some i =>
      if (0 <? i)%nat && (i <? String.length name - 1)%nat
      then substring 0 i name
      else name
  | None => name
  end.

End PyPath.

(** ** [main] *)

(** How [main] ends: without the cache file, without a file to process, with
    its summary once every file has its document, or with an exception that
    nothing catches.  [written] holds the output files, by name, in the order
    they were written. *)
Inductive main_outcome : Type :=
| CacheFileNotFound
| NoJsonFiles
| Summary (written : list (string * timeline_document))
    (processed total_violations : nat)
| Uncaught (ex : exn) (written : list (string * timeline_document)).

(** [not f.name.endswith("_violations.json")]. *)
Definition is_metadata_file (f : metadata_file) : bool :=
  negb (PyPath.endswith (file_name f) "_violations.json").

(** [f"{metadata_file.stem}_violations.json"]. *)
Definition output_name (f : metadata_file) : string :=
  (PyPath.stem (file_name f) ++ "_violations.json")%string.

(** The loop of [main] over [metadata_files]. *)
Fixpoint main_files (cache : OSMSpeedLimitsCache) (metadata_files : list metadata_file)
    (g : globals) (written : list (string * timeline_document))
    (total_violations : nat) (processed : nat) : main_outcome :=
  match metadata_files with
  | [] => Summary written processed total_violations
  | f :: rest =>
      let out :=
        check_metadata_file_violations f cache main_violation_threshold g in
      match export_violations_to_json (returned out) (PyPath.stem (file_name f))
              (globals_after out) with
      | Raise ex => Uncaught ex written
      | Ok doc =>
          main_files cache rest (globals_after out)
            (written ++ [(output_name f, doc)])
            (total_violations + List.length (returned out)) processed
      end
  end.

(** [main], given what loading the cache file gives ([None] when the file
    is not found) and the files that [metadata_dir.glob("*.json")] lists. *)
Definition main (loaded : option OSMSpeedLimitsCache)
    (all_json_files : list metadata_file) (g : globals) : main_outcome :=
  match loaded with
  | None => CacheFileNotFound
  | Some cache =>
      let metadata_files := List.filter is_metadata_file all_json_files in
      match metadata_files with
      | [] => NoJsonFiles
      | _ =>
          main_files cache metadata_files g [] 0 (List.length metadata_files)
      end
  end.

(** ** Notions the further properties are stated with *)

(** The samples of a file, none when it has no [dynamicMetadata] or cannot
    be read. *)
Definition samples_of (metadata : metadata_file) : list entry :=
  match content metadata with
  | Ok (Some entries) => entries
  | _ => []
  end.

(** The record [v] is the one built from the sample [e]: it carries the
    sample's data, the sample moves, and its speed exceeds the record's limit
    plus the threshold. *)
Definition record_of_sample (violation_threshold : float) (e : entry)
    (v : violation) : Prop :=
  exists lat lon speed,
    latitude e = Some lat /\ longitude e = Some lon
    /\ displaySpeed e = Some speed
    /\ timestamp_us v = default 0 (timestampUs e)
    /\ v_latitude v = lat /\ v_longitude v = lon /\ speed_kmh v = speed
    /\ v_altitude v = altitude e /\ compass_angle v = compassAngle e
    /\ PyNum.le speed 0 = false
    /\ PyNum.gt speed (PrimFloat.add (speed_limit_kmh v) violation_threshold) = true
    /\ over_speed v = PrimFloat.sub speed (speed_limit_kmh v)
    /\ over_speed_percent v
       = (if PyNum.gt (speed_limit_kmh v) 0
          then PrimFloat.mul (PrimFloat.div (over_speed v) (speed_limit_kmh v)) 100
          else 0%float).

(** The raw limit is a text and the numeric limit is what it parses to. *)
Definition limit_parsed (raw : pyval) (limit : float) : Prop :=
  exists s, raw = VStr s /\ s <> "" /\ parse_speed_limit (VStr s) = Some limit.

(** Every limit in the cache is the parse of its raw text. *)
Definition cache_limits_parsed (cc : gmap string (option speed_limit_info)) : Prop :=
  forall k info,
    cc !! k = Some (Some info) ->
    limit_parsed (maxspeed_raw info) (maxspeed info).

(** The event made from a record whose [timestamp_s] is at hand. *)
Definition event_of_record (v : violation) : timeline_event :=
  {| timestamp := timestamp_s v;
     ev_latitude := v_latitude v;
     ev_longitude := v_longitude v;
     speed_limit := speed_limit_kmh v;
     current_speed := speed_kmh v;
     detected_violation := 3 |}.

(** The sample has the three keys the loop asks for. *)
Definition has_required_fields (e : entry) : bool :=
  match latitude e, longitude e, displaySpeed e with
  | Some _, Some _, Some _ => true
  | _, _, _ => false
  end.

(** The first of the numbers that is not zero, zero when there is none. *)
Fixpoint first_nonzero (l : list Z) : Z :=
  match l with
  | [] => 0
  | z :: l' => if z =? 0 then first_nonzero l' else z
  end.

(** The timestamp the loop reads from a sample. *)
Definition timestamp_of (e : entry) : Z := default 0 (timestampUs e).

(** The events of [doc] are those of the records [vs], one each, in
    ascending order of [timestamp_us], records of equal timestamp keeping
    their order. *)
Definition events_in_order (vs : list violation) (doc : timeline_document) : Prop :=
  exists sorted,
    Permutation vs sorted
    /\ StronglySorted Z.le (map timestamp_us sorted)
    /\ (forall k,
           List.filter (fun v => timestamp_us v =? k) sorted
           = List.filter (fun v => timestamp_us v =? k) vs)
    /\ Forall2
         (fun v ev =>
            PyNum.int_true_div (timestamp_us v) us_per_s = Ok (timestamp ev)
            /\ ev_latitude ev = v_latitude v
            /\ ev_longitude ev = v_longitude v
            /\ speed_limit ev = speed_limit_kmh v
            /\ current_speed ev = speed_kmh v
            /\ detected_violation ev = 3)
         sorted (list_of_timeline_events doc).

(** The samples of [sites], in order, that are the first with their cache
    key, the keys of [seen] apart. *)
Fixpoint first_of_each_key (seen : list string) (sites : list (float * float))
    : list (float * float) :=
  match sites with
  | [] => []
  | p :: rest =>
      if bool_decide (key_of p ∈ seen) then first_of_each_key seen rest
      else p :: first_of_each_key (key_of p :: seen) rest
  end.

(** The keys of the cache are those of [seen]. *)
Definition cache_holds (cc : gmap string (option speed_limit_info))
    (seen : list string) : Prop :=
  forall k, cc !! k <> None <-> k ∈ seen.

(** ** Further examples *)

Module MoreExamples.

(** Three records with the timestamps 5, 2 and 5 seconds. *)
Definition record_at (ts : Z) (speed : float) : violation :=
  {| timestamp_us := ts; timestamp_s := 0; v_latitude := 44.1;
     v_longitude := 20.4; speed_kmh := speed; speed_limit_kmh := 50;
     speed_limit_raw := VStr "50"; over_speed := PrimFloat.sub speed 50;
     over_speed_percent := 0; highway_type := VStr "primary";
     road_name := VStr ""; v_way_id := VNone; v_altitude := None;
     compass_angle := None |}.

Definition unordered_records : list violation :=
  [ record_at 5000000 70; record_at 2000000 80; record_at 5000000 90 ].

(** What the export writes for a list of records, when it writes. *)
Definition exported (vs : list violation) (g : globals) : timeline_document :=
  match export_violations_to_json vs "trip" g with
  | Ok doc => doc
  | Raise _ =>
      {| doc_id := ""; start_time := 0; end_time := 0; score := 0;
         list_of_timeline_events := [] |}
  end.

(** A directory listing: two metadata files and an output of an earlier
    run. *)
Definition listing : list metadata_file :=
  [ {| file_name := "a.json"; content := Ok (Some Examples.trip) |};
    {| file_name := "a_violations.json"; content := Ok None |};
    {| file_name := "b.json"; content := Ok (Some Examples.trip_with_gap) |} ].

(** What [main] writes for this listing. *)
Definition written_listing : list (string * timeline_document) :=
  match main (Some Examples.index50) listing initial_globals with
  | Summary written _ _ => written
  | _ => []
  end.

(** A sample that stands still. *)
Definition standing : entry := Examples.sample 3000000 44.1 20.4 0.

End MoreExamples.

(** * Properties *)

(** ** Order and arithmetic of binary64 values *)

Module FloatOrder.

Ltac cmp_cases :=
  repeat match goal with
  | H : context [Z.compare ?a ?b] |- _ => destruct (Z.compare_spec a b)
  | |- context [Z.compare ?a ?b] => destruct (Z.compare_spec a b)
  | H : context [Pos.compare_cont Eq ?a ?b] |- _ =>
      change (Pos.compare_cont Eq a b) with (Pos.compare a b) in H
  | |- context [Pos.compare_cont Eq ?a ?b] =>
      change (Pos.compare_cont Eq a b) with (Pos.compare a b)
  | H : context [Pos.compare ?a ?b] |- _ => destruct (Pos.compare_spec a b)
  | |- context [Pos.compare ?a ?b] => destruct (Pos.compare_spec a b)
  end.

(** Comparison of specification floats is lexicographic on sign, exponent
    and mantissa: its order facts follow by cases. *)
Ltac sf_order :=
  unfold SFltb, SFleb, SFeqb, SFcompare;
  repeat match goal with x : spec_float |- _ => destruct x end;
  repeat match goal with b : bool |- _ => destruct b end;
  simpl; try congruence; try reflexivity; intros;
  cmp_cases; simpl in *; subst; try congruence; try reflexivity; try lia.

Lemma SFltb_irrefl x : SFltb x x = false.
Proof. sf_order. Qed.

Lemma SFle_lt_trans x y z :
  SFleb x y = true -> SFltb y z = true -> SFltb x z = true.
Proof. sf_order. Qed.

Lemma SFlt_trans x y z :
  SFltb x y = true -> SFltb y z = true -> SFltb x z = true.
Proof. sf_order. Qed.

Lemma SFle_of_not_lt x y :
  SFleb x x = true -> SFleb y y = true -> SFltb x y = false -> SFleb y x = true.
Proof. sf_order. Qed.

Lemma SFleb_refl x : x <> S754_nan -> SFleb x x = true.
Proof. sf_order. Qed.

Lemma SFltb_nan_r x : SFltb x S754_nan = false.
Proof. sf_order. Qed.

Lemma SFltb_pinf_l x : SFltb (S754_infinity false) x = false.
Proof. sf_order. Qed.

Lemma SFltb_ninf_r x : SFltb x (S754_infinity true) = false.
Proof. sf_order. Qed.

(** *** Rounding never produces NaN *)

Lemma shr_1_nonneg mrs : 0 <= shr_m mrs -> 0 <= shr_m (shr_1 mrs).
Proof.
  destruct mrs as [m r s]; simpl. destruct m as [|p|p]; intros H; try lia.
  - simpl; lia.
  - destruct p; simpl; lia.
Qed.

Lemma iter_shr_1_nonneg p :
  forall mrs, 0 <= shr_m mrs -> 0 <= shr_m (SpecFloat.iter_pos shr_1 p mrs).
Proof. induction p; intros mrs H; simpl; auto using shr_1_nonneg. Qed.

Lemma shr_fexp_nonneg pr em m e l :
  0 <= m -> 0 <= shr_m (fst (shr_fexp pr em m e l)).
Proof.
  intros H. unfold shr_fexp, shr.
  assert (H0 : 0 <= shr_m (shr_record_of_loc m l)).
  { destruct l as [|[| |]]; simpl; exact H. }
  destruct (fexp pr em (Zdigits2 m + e) - e); simpl;
    auto using iter_shr_1_nonneg.
Qed.

Lemma round_nearest_even_nonneg m l : 0 <= m -> 0 <= round_nearest_even m l.
Proof.
  intros H. destruct l as [|[| |]]; simpl; try lia. destruct (Z.even m); lia.
Qed.

Lemma binary_round_aux_not_nan pr em sx mx ex lx :
  0 <= mx -> binary_round_aux pr em sx mx ex lx <> S754_nan.
Proof.
  intros H. unfold binary_round_aux.
  pose proof (shr_fexp_nonneg pr em mx ex lx H) as H1.
  destruct (shr_fexp pr em mx ex lx) as [mrs' e']. simpl in H1.
  pose proof (shr_fexp_nonneg pr em _ e' loc_Exact
                (round_nearest_even_nonneg _ (loc_of_shr_record mrs') H1)) as H2.
  destruct (shr_fexp pr em
              (round_nearest_even (shr_m mrs') (loc_of_shr_record mrs')) e' loc_Exact)
    as [mrs'' e'']. simpl in H2.
  destruct (shr_m mrs''); try lia; try discriminate.
  destruct (e'' <=? em - pr); discriminate.
Qed.

Lemma binary_normalize_not_nan pr em m e sz :
  binary_normalize pr em m e sz <> S754_nan.
Proof.
  unfold binary_normalize, binary_round.
  destruct m; try discriminate.
  - destruct (shl_align p e _). apply binary_round_aux_not_nan; lia.
  - destruct (shl_align p e _). apply binary_round_aux_not_nan; lia.
Qed.

Lemma SFadd_pinf_l pr em t :
  SFadd pr em (S754_infinity false) t = S754_infinity false
  \/ SFadd pr em (S754_infinity false) t = S754_nan.
Proof. destruct t as [s|[|]| |s m e]; simpl; auto. Qed.

(** When [s > m + t] holds, [s - m] is not NaN. *)
Lemma SFsub_number pr em s m t :
  SFltb (SFadd pr em m t) s = true ->
  SFleb (SFsub pr em s m) (SFsub pr em s m) = true.
Proof.
  intros H. apply SFleb_refl.
  assert (Hs : s <> S754_nan).
  { intros ->. rewrite SFltb_nan_r in H. discriminate. }
  assert (Hm : m <> S754_nan).
  { intros ->. simpl in H. discriminate. }
  assert (Hs' : s <> S754_infinity true).
  { intros ->. rewrite SFltb_ninf_r in H. discriminate. }
  assert (Hm' : m <> S754_infinity false).
  { intros ->. destruct (SFadd_pinf_l pr em t) as [E|E]; rewrite E in H.
    - rewrite SFltb_pinf_l in H. discriminate.
    - simpl in H. discriminate. }
  destruct s as [ss|[|]| |ss ms es], m as [sm|[|]| |sm mm me];
    try congruence; try (simpl; congruence);
    try (simpl; apply binary_normalize_not_nan).
  destruct ss, sm; simpl; congruence.
Qed.

(** *** The same facts on [float] *)

Lemma ltb_irrefl x : PrimFloat.ltb x x = false.
Proof. rewrite ltb_spec. apply SFltb_irrefl. Qed.

Lemma le_lt_trans x y z :
  PrimFloat.leb x y = true -> PrimFloat.ltb y z = true -> PrimFloat.ltb x z = true.
Proof. rewrite !ltb_spec, leb_spec. apply SFle_lt_trans. Qed.

Lemma lt_trans x y z :
  PrimFloat.ltb x y = true -> PrimFloat.ltb y z = true -> PrimFloat.ltb x z = true.
Proof. rewrite !ltb_spec. apply SFlt_trans. Qed.

Lemma le_of_not_lt x y :
  PyNum.number x -> PyNum.number y ->
  PrimFloat.ltb x y = false -> PrimFloat.leb y x = true.
Proof. unfold PyNum.number. rewrite ltb_spec, !leb_spec. apply SFle_of_not_lt. Qed.

Lemma sub_number s m t :
  PrimFloat.ltb (PrimFloat.add m t) s = true ->
  PyNum.number (PrimFloat.sub s m).
Proof.
  unfold PyNum.number. rewrite ltb_spec, leb_spec, add_spec, sub_spec.
  apply SFsub_number.
Qed.

End FloatOrder.

(** ** The state after a flush, a kept best, a stored lookup *)

Lemma flush_run_violations st :
  violations (flush_run st) = violations st ++ option_list (current_run_best st).
Proof.
  unfold flush_run. destruct (current_run_best st); simpl.
  - reflexivity.
  - symmetry; apply app_nil_r.
Qed.

Lemma flush_run_best st : current_run_best (flush_run st) = None.
Proof.
  unfold flush_run. destruct (current_run_best st) eqn:E; simpl; auto.
Qed.

Lemma flush_run_cache st : coordinate_cache (flush_run st) = coordinate_cache st.
Proof. unfold flush_run. destruct (current_run_best st); reflexivity. Qed.

Lemma flush_run_glob st : glob (flush_run st) = glob st.
Proof. unfold flush_run. destruct (current_run_best st); reflexivity. Qed.

Lemma flush_run_calls st : resolver_calls (flush_run st) = resolver_calls st.
Proof. unfold flush_run. destruct (current_run_best st); reflexivity. Qed.

Lemma keep_best_violations v st : violations (keep_best v st) = violations st.
Proof.
  unfold keep_best. destruct (current_run_best st); [|reflexivity].
  destruct (PyNum.gt _ _); reflexivity.
Qed.

Lemma keep_best_cache v st : coordinate_cache (keep_best v st) = coordinate_cache st.
Proof.
  unfold keep_best. destruct (current_run_best st); [|reflexivity].
  destruct (PyNum.gt _ _); reflexivity.
Qed.

Lemma keep_best_glob v st : glob (keep_best v st) = glob st.
Proof.
  unfold keep_best. destruct (current_run_best st); [|reflexivity].
  destruct (PyNum.gt _ _); reflexivity.
Qed.

Lemma keep_best_calls v st : resolver_calls (keep_best v st) = resolver_calls st.
Proof.
  unfold keep_best. destruct (current_run_best st); [|reflexivity].
  destruct (PyNum.gt _ _); reflexivity.
Qed.

(** The record built for a sample carries the sample's data. *)
Lemma build_violation_fields e ts lat lon speed info v :
  build_violation e ts lat lon speed info = Ok v ->
  timestamp_us v = ts /\ speed_kmh v = speed
  /\ speed_limit_kmh v = maxspeed info
  /\ over_speed v = PrimFloat.sub speed (maxspeed info)
  /\ v_latitude v = lat /\ v_longitude v = lon.
Proof.
  unfold build_violation, bind.
  destruct (if ts =? 0 then _ else _); [|discriminate].
  intros [= <-]. simpl. auto 10.
Qed.

(** ** One iteration, seen through the verdict on its sample *)

Section Segmenter.

Variable cache : OSMSpeedLimitsCache.
Variable violation_threshold : float.

Lemma judge_entry_matches st st1 e lat lon speed info cc :
  violations st1 = violations st ->
  current_run_best st1 = current_run_best st ->
  coordinate_cache st1 = cc ->
  step_matches st
    (match info with
     | None => Ok (None, cc)
     | Some i =>
         if PyNum.gt speed (PrimFloat.add (maxspeed i) violation_threshold)
         then bind (build_violation e (default 0 (timestampUs e)) lat lon speed i)
                (fun v => Ok (Some v, cc))
         else Ok (None, cc)
     end)
    (judge_entry violation_threshold e (default 0 (timestampUs e))
       lat lon speed info st1).
Proof.
  intros Hv Hb Hc. unfold judge_entry.
  destruct info as [i|]; [|constructor; assumption].
  destruct (PyNum.gt speed _); [|constructor; assumption].
  destruct (build_violation _ _ _ _ _ _); simpl; constructor; assumption.
Qed.

Lemma loop_body_matches st e :
  step_matches st
    (classify_sample cache violation_threshold (coordinate_cache st) e)
    (loop_body cache violation_threshold st e).
Proof.
  unfold classify_sample, loop_body.
  destruct (latitude e) as [lat|]; [|constructor; reflexivity].
  destruct (longitude e) as [lon|]; [|destruct (displaySpeed e); constructor; reflexivity].
  destruct (displaySpeed e) as [speed|]; [|constructor; reflexivity].
  destruct (PyNum.le speed 0); [constructor; reflexivity|].
  unfold resolve_through_cache. simpl coordinate_cache.
  destruct (coordinate_cache st !! coord_key lat lon) as [info|] eqn:Hk.
  - simpl bind. apply judge_entry_matches; reflexivity.
  - destruct (find_speed_limit_for_coordinate cache lat lon 6) as [info|ex].
    + simpl bind. apply judge_entry_matches; reflexivity.
    + simpl. constructor. reflexivity.
Qed.

End Segmenter.

(** ** Runs and their best record *)

Lemma runs_from_concat {A : Type} (cs : list (option A)) :
  forall cur, concat (runs_from cur cs) = cur ++ violating cs.
Proof.
  induction cs as [|[a|] cs IH]; intros cur; simpl.
  - destruct cur; simpl; [reflexivity|]. now rewrite !app_nil_r.
  - rewrite IH. unfold violating. simpl. now rewrite <- app_assoc.
  - rewrite concat_app, IH. unfold violating. simpl.
    destruct cur; simpl; [reflexivity|]. now rewrite !app_nil_r.
Qed.

Lemma runs_from_nonempty {A : Type} (cs : list (option A)) :
  forall cur, Forall (fun run => run <> []) (runs_from cur cs).
Proof.
  induction cs as [|[a|] cs IH]; intros cur; simpl.
  - destruct cur; simpl; repeat constructor. discriminate.
  - apply IH.
  - apply Forall_app. split; [|apply IH].
    destruct cur; simpl; repeat constructor. discriminate.
Qed.

Lemma runs_from_length {A : Type} (cs : list (option A)) :
  forall cur,
    (List.length (runs_from cur cs)
     <= List.length (close_run cur) + List.length (violating cs))%nat.
Proof.
  induction cs as [|[a|] cs IH]; intros cur; simpl.
  - lia.
  - specialize (IH (cur ++ [a])). unfold violating in *. simpl.
    assert (List.length (close_run (cur ++ [a])) = 1%nat)
      by (destruct cur; reflexivity).
    destruct cur; simpl in *; lia.
  - specialize (IH []). rewrite length_app. unfold violating in *. simpl in *. lia.
Qed.

(** The record of a run that has one sample. *)
Lemma best_of_run_single v : best_of_run [v] v.
Proof. exists [], []. repeat split; constructor. Qed.

(** A sample that beats the record of the run becomes the record. *)
Lemma best_of_run_beaten run b v :
  best_of_run run b -> lt_over b v -> best_of_run (run ++ [v]) v.
Proof.
  intros (before & after & -> & Hb & Ha) Hlt.
  exists (before ++ b :: after), []. split; [reflexivity|]. split; [|constructor].
  apply Forall_app. split.
  - eapply Forall_impl; [exact Hb|]. intros j Hj.
    exact (FloatOrder.lt_trans _ _ _ Hj Hlt).
  - constructor; [exact Hlt|].
    eapply Forall_impl; [exact Ha|]. intros j Hj.
    exact (FloatOrder.le_lt_trans _ _ _ Hj Hlt).
Qed.

(** A sample that does not beat the record leaves it in place. *)
Lemma best_of_run_kept run b v :
  best_of_run run b -> le_over v b -> best_of_run (run ++ [v]) b.
Proof.
  intros (before & after & -> & Hb & Ha) Hle.
  exists before, (after ++ [v]). split; [now rewrite <- app_assoc|].
  split; [exact Hb|]. apply Forall_app. split; [exact Ha|].
  constructor; [exact Hle|constructor].
Qed.

Lemma best_of_run_in run b : best_of_run run b -> In b run.
Proof. intros (before & after & -> & _). apply in_elt. Qed.

Lemma open_run_flush cur best :
  open_run cur best -> Forall2 best_of_run (close_run cur) (option_list best).
Proof.
  intros [_ H]. destruct best as [b|]; simpl.
  - destruct cur as [|c cur].
    + apply best_of_run_in in H. destruct H.
    + simpl. repeat constructor. exact H.
  - subst. constructor.
Qed.

Lemma open_run_keep_best cur v st :
  PyNum.number (over_speed v) ->
  open_run cur (current_run_best st) ->
  open_run (cur ++ [v]) (current_run_best (keep_best v st)).
Proof.
  intros Hv [Hn H]. split.
  { apply Forall_app. split; [exact Hn|]. repeat constructor. exact Hv. }
  unfold keep_best. destruct (current_run_best st) as [b|] eqn:E; simpl.
  - assert (Hb : PyNum.number (over_speed b)).
    { apply best_of_run_in in H. rewrite List.Forall_forall in Hn. now apply Hn. }
    unfold PyNum.gt. destruct (PrimFloat.ltb (over_speed b) (over_speed v)) eqn:Hlt; simpl.
    + exact (best_of_run_beaten cur b v H Hlt).
    + rewrite E. apply best_of_run_kept; [exact H|].
      now apply FloatOrder.le_of_not_lt.
  - subst. apply best_of_run_single.
Qed.

(** A violating sample's [over_speed] is a number. *)
Lemma classify_sample_number cache thr cc e v cc' :
  classify_sample cache thr cc e = Ok (Some v, cc') ->
  PyNum.number (over_speed v).
Proof.
  unfold classify_sample.
  destruct (latitude e) as [lat|]; [|discriminate].
  destruct (longitude e) as [lon|]; [|discriminate].
  destruct (displaySpeed e) as [speed|]; [|discriminate].
  destruct (PyNum.le speed 0); [discriminate|].
  destruct (resolve_through_cache cache cc lat lon) as [[info cc1]|]; [|discriminate].
  simpl. destruct info as [i|]; [|discriminate].
  destruct (PyNum.gt speed _) eqn:Hgt; [|discriminate].
  destruct (build_violation _ _ _ _ _ _) as [w|] eqn:Hb; [|discriminate].
  simpl. intros [= -> _].
  apply build_violation_fields in Hb. destruct Hb as (_ & _ & _ & -> & _).
  eapply FloatOrder.sub_number. exact Hgt.
Qed.

Section Runs.

Variable cache : OSMSpeedLimitsCache.
Variable violation_threshold : float.

(** A loop that ends normally has classified every sample, and what it
    has appended by the final flush is the best record of each run. *)
Lemma run_loop_runs entries :
  forall st st' cur,
    open_run cur (current_run_best st) ->
    run_loop cache violation_threshold st entries = Next st' ->
    exists cls news,
      classify cache violation_threshold (coordinate_cache st) entries = Ok cls
      /\ violations (flush_run st') = violations st ++ news
      /\ Forall2 best_of_run (runs_from cur cls) news.
Proof.
  induction entries as [|e rest IH]; intros st st' cur Hopen Hrun; simpl in Hrun.
  - injection Hrun as <-. exists [], (option_list (current_run_best st)).
    split; [reflexivity|]. split; [apply flush_run_violations|].
    simpl. now apply open_run_flush.
  - pose proof (loop_body_matches cache violation_threshold st e) as Hm.
    destruct (loop_body cache violation_threshold st e) as [st1|ex st1];
      [|discriminate].
    inversion Hm as [| cc st0 Hv Hb Hc Hcls | v cc st0 Hv Hb Hc Hcls]; subst st1.
    + destruct (IH (flush_run st0) st' []) as (cls & news & Hk & Hvs & Hf).
      { rewrite flush_run_best. split; [constructor|reflexivity]. }
      { exact Hrun. }
      rewrite flush_run_cache, Hc in Hk.
      exists (None :: cls), (option_list (current_run_best st) ++ news).
      split; [simpl; rewrite <- Hcls; simpl; rewrite Hk; reflexivity|].
      split.
      * rewrite Hvs, flush_run_violations, Hv, Hb. now rewrite <- app_assoc.
      * simpl. apply Forall2_app; [now apply open_run_flush|exact Hf].
    + destruct (IH (keep_best v st0) st' (cur ++ [v])) as (cls & news & Hk & Hvs & Hf).
      { apply open_run_keep_best; [|now rewrite Hb].
        eapply classify_sample_number. symmetry. exact Hcls. }
      { exact Hrun. }
      rewrite keep_best_cache, Hc in Hk.
      exists (Some v :: cls), news.
      split; [simpl; rewrite <- Hcls; simpl; rewrite Hk; reflexivity|].
      split; [now rewrite Hvs, keep_best_violations, Hv|exact Hf].
Qed.

End Runs.

(** The function on a file whose [dynamicMetadata] was read. *)
Lemma check_on_entries name entries cache thr g :
  check_metadata_file_violations
    {| file_name := name; content := Ok (Some entries) |} cache thr g
  = match run_loop cache thr (fresh_locals g) entries with
    | Next st =>
        {| returned := violations (flush_run st);
           printed := Processed (entry_count (flush_run st))
                        (List.length (violations (flush_run st)));
           globals_after := glob (flush_run st);
           calls := resolver_calls (flush_run st) |}
    | Stop ex st =>
        {| returned := violations st; printed := ErrorProcessing ex;
           globals_after := glob st; calls := resolver_calls st |}
    end.
Proof. reflexivity. Qed.

(** C1, as the code has it.  When the pass over a stream ends without a
    caught exception, every sample has a verdict, and the returned list
    holds, for each maximal contiguous run of violating samples and in the
    order of the runs, exactly one record: a sample of the run whose
    [over_speed] is at least that of every sample of the run and strictly
    greater than that of every earlier sample of the run.  Hence there are at
    most as many records as violating samples. *)
Theorem check_emits_best_of_each_run cache thr g file_name entries n k :
  printed (check_metadata_file_violations
             {| file_name := file_name; content := Ok (Some entries) |} cache thr g)
  = Processed n k ->
  exists cls,
    classify cache thr ∅ entries = Ok cls
    /\ Forall2 best_of_run (runs cls)
         (returned (check_metadata_file_violations
                      {| file_name := file_name; content := Ok (Some entries) |}
                      cache thr g))
    /\ (List.length
          (returned (check_metadata_file_violations
                       {| file_name := file_name; content := Ok (Some entries) |}
                       cache thr g))
        <= List.length (violating cls))%nat.
Proof.
  rewrite check_on_entries.
  destruct (run_loop cache thr (fresh_locals g) entries) as [st|ex st] eqn:Hrun;
    cbn [printed returned]; [|discriminate].
  intros _.
  destruct (run_loop_runs cache thr entries (fresh_locals g) st [])
    as (cls & news & Hk & Hvs & Hf).
  { split; [constructor|reflexivity]. }
  { exact Hrun. }
  simpl in Hk, Hvs. exists cls. rewrite Hvs. split; [exact Hk|]. split; [exact Hf|].
  rewrite <- (Forall2_length _ _ _ Hf).
  pose proof (runs_from_length cls []) as H. simpl in H. exact H.
Qed.

(** On [Examples.trip] with threshold 10 the runs are the samples 2 to 4 and
    the sample 6. *)
Lemma check_emits_best_of_each_run_witness :
  exists cls,
    classify Examples.index50 10 ∅ Examples.trip = Ok cls
    /\ Forall2 best_of_run (runs cls)
         (returned (check_metadata_file_violations
                      (Examples.file Examples.trip) Examples.index50 10
                      initial_globals))
    /\ (List.length
          (returned (check_metadata_file_violations
                       (Examples.file Examples.trip) Examples.index50 10
                       initial_globals))
        <= List.length (violating cls))%nat.
Proof.
  apply (check_emits_best_of_each_run Examples.index50 10 initial_globals
           "trip" Examples.trip 6 2).
  vm_compute. reflexivity.
Defined.

(** C1, as stated, fails on a pass that an exception ends.  On
    [Examples.trip_failing] the first three samples get the verdicts
    violating, not violating, violating: two runs.  The index fails at the
    fourth sample while the second run is open, and the returned list holds
    the record of the first run only.  On [Examples.trip_overflow], with an
    index that never fails, the first sample is violating and the division
    of the second sample's timestamp overflows: nothing is returned. *)
Lemma open_run_lost_when_pass_is_cut :
  ((exists cls,
       classify Examples.failing_index 10 ∅ (firstn 3 Examples.trip_failing)
       = Ok cls
       /\ map (option_map timestamp_us) cls
          = [Some 1000000; None; Some 3000000]
       /\ List.length (runs cls) = 2%nat)
   /\ find_speed_limit_for_coordinate Examples.failing_index 44.3 20.4 6
      = Raise (LookupFailure "index unavailable")
   /\ map timestamp_us
        (returned (check_metadata_file_violations
                     (Examples.file Examples.trip_failing)
                     Examples.failing_index 10 initial_globals))
      = [1000000])
  /\ ((exists cls,
          classify Examples.index50 10 ∅ (firstn 1 Examples.trip_overflow)
          = Ok cls
          /\ map (option_map timestamp_us) cls = [Some 1000000])
      /\ returned (check_metadata_file_violations
                     (Examples.file Examples.trip_overflow)
                     Examples.index50 10 initial_globals)
         = []
      /\ printed (check_metadata_file_violations
                    (Examples.file Examples.trip_overflow)
                    Examples.index50 10 initial_globals)
         = ErrorProcessing OverflowError).
Proof.
  split.
  - split; [|split; vm_compute; reflexivity].
    eexists. split; [vm_compute; reflexivity|].
    split; vm_compute; reflexivity.
  - split; [|split; vm_compute; reflexivity].
    eexists. split; vm_compute; reflexivity.
Qed.

(** The two records of [Examples.trip]: of the tied samples 3 and 4 the
    earlier one is returned. *)
Example trip_records :
  map (fun v => (timestamp_us v, over_speed v))
    (returned (check_metadata_file_violations
                 (Examples.file Examples.trip) Examples.index50 10 initial_globals))
  = [(3000000, 20%float); (6000000, 30%float)].
Proof. vm_compute. reflexivity. Qed.

(** ** Single samples *)

Lemma run_loop_app cache thr l1 :
  forall st l2,
    run_loop cache thr st (l1 ++ l2)
    = match run_loop cache thr st l1 with
      | Next st' => run_loop cache thr st' l2
      | Stop ex st' => Stop ex st'
      end.
Proof.
  induction l1 as [|e l1 IH]; intros st l2; simpl; [reflexivity|].
  destruct (loop_body cache thr st e); [apply IH|reflexivity].
Qed.

(** A violating sample met when no run is open starts a run of its own. *)
Lemma violating_sample_opens_run cache thr st e v cc :
  current_run_best st = None ->
  classify_sample cache thr (coordinate_cache st) e = Ok (Some v, cc) ->
  exists st',
    loop_body cache thr st e = Next st'
    /\ current_run_best st' = Some v
    /\ violations st' = violations st.
Proof.
  intros Hnone Hcls.
  pose proof (loop_body_matches cache thr st e) as Hm. rewrite Hcls in Hm.
  inversion Hm as [| | v' cc' st1 Hv Hb Hc]; subst.
  exists (keep_best v st1). split; [reflexivity|]. split.
  - unfold keep_best. rewrite Hb, Hnone. reflexivity.
  - now rewrite keep_best_violations.
Qed.

(** C7.  A sample without latitude, longitude or speed is not violating and
    never stops the loop: the iteration ends normally, the record of an open
    run is appended and no run is open afterwards, the loop goes on with the
    next sample, and a violating sample met afterwards starts a run of its
    own with its own record. *)
Theorem missing_field_closes_run cache thr st e :
  latitude e = None \/ longitude e = None \/ displaySpeed e = None ->
  classify_sample cache thr (coordinate_cache st) e = Ok (None, coordinate_cache st)
  /\ exists st',
       loop_body cache thr st e = Next st'
       /\ violations st' = violations st ++ option_list (current_run_best st)
       /\ current_run_best st' = None
       /\ (forall rest,
             run_loop cache thr st (e :: rest) = run_loop cache thr st' rest)
       /\ (forall e2 v cc,
             classify_sample cache thr (coordinate_cache st') e2 = Ok (Some v, cc) ->
             exists st2,
               loop_body cache thr st' e2 = Next st2
               /\ current_run_best st2 = Some v
               /\ violations st2 = violations st').
Proof.
  intros Hmiss.
  assert (Hcls : classify_sample cache thr (coordinate_cache st) e
                 = Ok (None, coordinate_cache st)).
  { unfold classify_sample.
    destruct (latitude e), (longitude e), (displaySpeed e);
      try reflexivity.
    destruct Hmiss as [H|[H|H]]; discriminate. }
  split; [exact Hcls|].
  set (st0 := set_glob (track_globals (default 0 (timestampUs e)) (glob st)) st).
  assert (Hbody : loop_body cache thr st e = Next (flush_run st0)).
  { unfold loop_body. fold st0.
    destruct (latitude e), (longitude e), (displaySpeed e);
      try reflexivity.
    destruct Hmiss as [H|[H|H]]; discriminate. }
  exists (flush_run st0). split; [exact Hbody|].
  split; [rewrite flush_run_violations; reflexivity|].
  split; [apply flush_run_best|].
  split.
  - intros rest. simpl. now rewrite Hbody.
  - intros e2 v cc. apply violating_sample_opens_run. apply flush_run_best.
Qed.

(** C8.  A sample that reaches the lookup, gets the limit [maxspeed info] and
    whose speed is exactly that limit plus the threshold is not violating:
    the iteration appends the record of an open run, nothing else, and no
    run is open afterwards. *)
Theorem speed_equal_to_limit_plus_threshold cache thr st e lat lon speed info cc :
  latitude e = Some lat -> longitude e = Some lon -> displaySpeed e = Some speed ->
  PyNum.le speed 0 = false ->
  resolve_through_cache cache (coordinate_cache st) lat lon = Ok (Some info, cc) ->
  speed = PrimFloat.add (maxspeed info) thr ->
  classify_sample cache thr (coordinate_cache st) e = Ok (None, cc)
  /\ exists st',
       loop_body cache thr st e = Next st'
       /\ violations st' = violations st ++ option_list (current_run_best st)
       /\ current_run_best st' = None.
Proof.
  intros Hlat Hlon Hspeed Hpos Hres Heq.
  assert (Hcls : classify_sample cache thr (coordinate_cache st) e = Ok (None, cc)).
  { unfold classify_sample. rewrite Hlat, Hlon, Hspeed, Hpos, Hres. simpl.
    unfold PyNum.gt. rewrite <- Heq, FloatOrder.ltb_irrefl. reflexivity. }
  split; [exact Hcls|].
  pose proof (loop_body_matches cache thr st e) as Hm. rewrite Hcls in Hm.
  inversion Hm as [| cc' st1 Hv Hb Hc |]; subst.
  exists (flush_run st1). split; [reflexivity|].
  split; [now rewrite flush_run_violations, Hv, Hb|apply flush_run_best].
Qed.

(** A sample without latitude met while a run is open
    ([Examples.running]). *)
Lemma missing_field_closes_run_witness :
  classify_sample Examples.index50 10 (coordinate_cache Examples.running)
    (Examples.no_latitude 3000000)
  = Ok (None, coordinate_cache Examples.running)
  /\ exists st',
       loop_body Examples.index50 10 Examples.running
         (Examples.no_latitude 3000000) = Next st'
       /\ violations st'
          = violations Examples.running
              ++ option_list (current_run_best Examples.running)
       /\ current_run_best st' = None
       /\ (forall rest,
             run_loop Examples.index50 10 Examples.running
               (Examples.no_latitude 3000000 :: rest)
             = run_loop Examples.index50 10 st' rest)
       /\ (forall e2 v cc,
             classify_sample Examples.index50 10 (coordinate_cache st') e2
             = Ok (Some v, cc) ->
             exists st2,
               loop_body Examples.index50 10 st' e2 = Next st2
               /\ current_run_best st2 = Some v
               /\ violations st2 = violations st').
Proof.
  apply (missing_field_closes_run Examples.index50 10 Examples.running
           (Examples.no_latitude 3000000)).
  left. reflexivity.
Defined.

(** In [Examples.running] no record is appended yet and the best record
    is that of the second sample. *)
Example running_state :
  violations Examples.running = []
  /\ option_map timestamp_us (current_run_best Examples.running) = Some 2000000.
Proof. split; vm_compute; reflexivity. Qed.

(** Scenario B on [Examples.trip_with_gap]: the sample without latitude
    closes the run of 65 and 70, and the samples 80 and 75 form a run of
    their own. *)
Example trip_with_gap_records :
  map (fun v => (timestamp_us v, speed_kmh v))
    (returned (check_metadata_file_violations
                 (Examples.file Examples.trip_with_gap) Examples.index50 10
                 initial_globals))
  = [(2000000, 70%float); (4000000, 80%float)].
Proof. vm_compute. reflexivity. Qed.

(** A sample at 60 where the limit is 50 and the threshold is 10, met
    while a run is open ([Examples.running]): the lookup hits the cache. *)
Lemma speed_equal_to_limit_plus_threshold_witness :
  classify_sample Examples.index50 10 (coordinate_cache Examples.running)
    Examples.at_limit
  = Ok (None, coordinate_cache Examples.running)
  /\ exists st',
       loop_body Examples.index50 10 Examples.running Examples.at_limit = Next st'
       /\ violations st'
          = violations Examples.running
              ++ option_list (current_run_best Examples.running)
       /\ current_run_best st' = None.
Proof.
  apply (speed_equal_to_limit_plus_threshold Examples.index50 10
           Examples.running Examples.at_limit
           44.1 20.4 60 Examples.info50 (coordinate_cache Examples.running));
    vm_compute; reflexivity.
Defined.

(** Scenario A: of the speeds 55, 65, 60 and 40 with limit 50 and threshold
    10 only 65 is violating (60 equals limit plus threshold); its record has
    [over_speed] 15. *)
Example scenario_a_records :
  map (fun v => (timestamp_us v, speed_kmh v, over_speed v))
    (returned (check_metadata_file_violations
                 (Examples.file Examples.scenario_a) Examples.index50 10
                 initial_globals))
  = [(2000000, 65%float, 15%float)].
Proof. vm_compute. reflexivity. Qed.

(** ** The resolver *)

Lemma first_parsed_found skipped c rest v :
  Forall unparsable skipped ->
  parse_speed_limit (get (f_maxspeed c)) = Some v ->
  first_parsed (skipped ++ c :: rest) = Some (info_of c v).
Proof.
  intros Hs Hc. induction Hs as [|d skipped Hd _ IH]; simpl.
  - rewrite Hc. reflexivity.
  - unfold unparsable in Hd. rewrite Hd. exact IH.
Qed.

Lemma first_parsed_none candidates :
  Forall unparsable candidates -> first_parsed candidates = None.
Proof.
  intros H. induction H as [|d l Hd _ IH]; simpl; [reflexivity|].
  unfold unparsable in Hd. rewrite Hd. exact IH.
Qed.

(** The resolver when no candidate of either query parses. *)
Lemma find_nothing_parsed cache lat lon exact near :
  get_speed_limit cache lat lon 6 = Ok exact ->
  get_speed_limit_nearest cache lat lon 0.001 = Ok near ->
  Forall unparsable exact -> Forall unparsable near ->
  find_speed_limit_for_coordinate cache lat lon 6 = Ok None.
Proof.
  intros Hexact Hnear Hu1 Hu2.
  unfold find_speed_limit_for_coordinate. rewrite Hexact. simpl.
  rewrite (first_parsed_none exact Hu1).
  change nearest_max_distance with 0.001%float. rewrite Hnear. simpl.
  now rewrite (first_parsed_none near Hu2).
Qed.

(** A sample at a coordinate whose lookup misses the cache and finds no
    limit is not violating; it closes an open run. *)
Lemma sample_without_limit cache thr st e lat lon :
  latitude e = Some lat -> longitude e = Some lon ->
  coordinate_cache st !! coord_key lat lon = None ->
  find_speed_limit_for_coordinate cache lat lon 6 = Ok None ->
  (exists cc, classify_sample cache thr (coordinate_cache st) e = Ok (None, cc))
  /\ exists st',
       loop_body cache thr st e = Next st'
       /\ violations st' = violations st ++ option_list (current_run_best st)
       /\ current_run_best st' = None.
Proof.
  intros Hlat Hlon Hmiss Hfind.
  assert (Hcls : exists cc,
             classify_sample cache thr (coordinate_cache st) e = Ok (None, cc)).
  { unfold classify_sample, resolve_through_cache. rewrite Hlat, Hlon.
    destruct (displaySpeed e) as [speed|]; [|eauto].
    destruct (PyNum.le speed 0); [eauto|].
    rewrite Hmiss, Hfind. simpl. eauto. }
  split; [exact Hcls|]. destruct Hcls as [cc Hcls].
  pose proof (loop_body_matches cache thr st e) as Hm. rewrite Hcls in Hm.
  inversion Hm as [| cc' st1 Hv Hb Hc |]; subst.
  exists (flush_run st1). split; [reflexivity|].
  split; [now rewrite flush_run_violations, Hv, Hb|apply flush_run_best].
Qed.

(** C4.  With the exact query made at precision 6: the first exact
    candidate whose [maxspeed] parses gives the limit info, the candidates
    before it being skipped; when no exact candidate parses, the nearest
    query within 0.001 degrees is made and the same selection applies; when
    no candidate of either query parses the result is [None], and a sample
    there is not violating. *)
Theorem find_speed_limit_selection cache lat lon exact :
  get_speed_limit cache lat lon 6 = Ok exact ->
  (forall skipped c rest v,
      exact = skipped ++ c :: rest ->
      Forall unparsable skipped ->
      parse_speed_limit (get (f_maxspeed c)) = Some v ->
      find_speed_limit_for_coordinate cache lat lon 6 = Ok (Some (info_of c v)))
  /\ (Forall unparsable exact ->
      forall near,
        get_speed_limit_nearest cache lat lon 0.001 = Ok near ->
        (forall skipped c rest v,
            near = skipped ++ c :: rest ->
            Forall unparsable skipped ->
            parse_speed_limit (get (f_maxspeed c)) = Some v ->
            find_speed_limit_for_coordinate cache lat lon 6
            = Ok (Some (info_of c v)))
        /\ (Forall unparsable near ->
            find_speed_limit_for_coordinate cache lat lon 6 = Ok None
            /\ forall thr st e,
                 latitude e = Some lat -> longitude e = Some lon ->
                 coordinate_cache st !! coord_key lat lon = None ->
                 (exists cc,
                     classify_sample cache thr (coordinate_cache st) e
                     = Ok (None, cc))
                 /\ exists st',
                      loop_body cache thr st e = Next st'
                      /\ violations st'
                         = violations st ++ option_list (current_run_best st)
                      /\ current_run_best st' = None)).
Proof.
  intros Hexact. unfold find_speed_limit_for_coordinate. rewrite Hexact. simpl.
  split.
  - intros skipped c rest v -> Hs Hc.
    rewrite (first_parsed_found skipped c rest v Hs Hc). reflexivity.
  - intros Hnone near Hnear.
    rewrite (first_parsed_none exact Hnone).
    change nearest_max_distance with 0.001%float. rewrite Hnear. simpl.
    split.
    + intros skipped c rest v -> Hs Hc.
      rewrite (first_parsed_found skipped c rest v Hs Hc). reflexivity.
    + intros Hnone'. rewrite (first_parsed_none near Hnone').
      split; [reflexivity|].
      intros thr st e Hlat Hlon Hmiss.
      apply (sample_without_limit cache thr st e lat lon Hlat Hlon Hmiss).
      exact (find_nothing_parsed cache lat lon exact near Hexact Hnear
               Hnone Hnone').
Qed.

(** With [Examples.index50] the exact query answers. *)
Lemma find_speed_limit_selection_witness :
  find_speed_limit_for_coordinate Examples.index50 44.1 20.4 6
  = Ok (Some (info_of (Examples.road "50") 50)).
Proof.
  apply (proj1 (find_speed_limit_selection Examples.index50 44.1 20.4
                  [Examples.road "50"] eq_refl)
           [] (Examples.road "50") [] 50%float).
  - reflexivity.
  - constructor.
  - vm_compute. reflexivity.
Defined.

(** ** Limits that are not text *)


(** ** A failing index *)

Lemma index_raises_find cache lat lon ex :
  index_raises cache lat lon ex ->
  find_speed_limit_for_coordinate cache lat lon 6 = Raise ex.
Proof.
  unfold find_speed_limit_for_coordinate.
  intros [H|(candidates & H1 & H2 & H3)].
  - rewrite H. reflexivity.
  - rewrite H1. simpl. rewrite H2.
    change nearest_max_distance with 0.001%float. rewrite H3. reflexivity.
Qed.

(** The iteration in which the resolver raises stops the loop and appends
    nothing. *)
Lemma loop_body_resolver_raises cache thr st e lat lon ex :
  lookup_site e = Some (lat, lon) ->
  coordinate_cache st !! coord_key lat lon = None ->
  find_speed_limit_for_coordinate cache lat lon 6 = Raise ex ->
  exists st',
    loop_body cache thr st e = Stop ex st' /\ violations st' = violations st.
Proof.
  unfold lookup_site, loop_body. intros Hsite Hmiss Hfind.
  destruct (latitude e) as [lat'|]; [|discriminate].
  destruct (longitude e) as [lon'|]; [|discriminate].
  destruct (displaySpeed e) as [speed|]; [|discriminate].
  destruct (PyNum.le speed 0); [discriminate|].
  injection Hsite as -> ->.
  simpl coordinate_cache. rewrite Hmiss, Hfind.
  eexists. split; reflexivity.
Qed.

(** C2, as the code has it.  When a query of the index raises during the
    lookup for a sample, the function catches the exception: it prints the
    error and returns normally, to its caller, the records appended before
    that sample; the record of a run open at that point is not among them
    and the samples after it are not read. *)
Theorem index_failure_is_caught cache thr g file_name before e after st lat lon ex :
  run_loop cache thr (fresh_locals g) before = Next st ->
  lookup_site e = Some (lat, lon) ->
  coordinate_cache st !! coord_key lat lon = None ->
  index_raises cache lat lon ex ->
  returned (check_metadata_file_violations
              {| file_name := file_name;
                 content := Ok (Some (before ++ e :: after)) |} cache thr g)
  = violations st
  /\ printed (check_metadata_file_violations
                {| file_name := file_name;
                   content := Ok (Some (before ++ e :: after)) |} cache thr g)
     = ErrorProcessing ex.
Proof.
  intros Hbefore Hsite Hmiss Hraise.
  rewrite check_on_entries, run_loop_app, Hbefore. simpl.
  destruct (loop_body_resolver_raises cache thr st e lat lon ex Hsite Hmiss
              (index_raises_find cache lat lon ex Hraise)) as (st' & -> & Hv).
  simpl. now rewrite Hv.
Qed.

(** On [Examples.trip_failing] the index fails at the fourth sample. *)
Lemma index_failure_is_caught_witness :
  returned (check_metadata_file_violations
              (Examples.file Examples.trip_failing) Examples.failing_index 10
              initial_globals)
  = violations
      (match run_loop Examples.failing_index 10 (fresh_locals initial_globals)
               (firstn 3 Examples.trip_failing) with
       | Next st => st
       | Stop _ st => st
       end)
  /\ printed (check_metadata_file_violations
                (Examples.file Examples.trip_failing) Examples.failing_index 10
                initial_globals)
     = ErrorProcessing (LookupFailure "index unavailable").
Proof.
  apply (index_failure_is_caught Examples.failing_index 10 initial_globals "trip"
           (firstn 3 Examples.trip_failing)
           (Examples.sample 4000000 44.3 20.4 95)
           (skipn 4 Examples.trip_failing)
           _ 44.3 20.4 (LookupFailure "index unavailable")).
  - vm_compute. reflexivity.
  - vm_compute. reflexivity.
  - vm_compute. reflexivity.
  - left. vm_compute. reflexivity.
Defined.

(** C2, as stated, fails.  On [Examples.trip_failing] the exact query raises
    at the fourth sample, during the pass; the function returns a list all
    the same, holding the record of the first run only (the run of the third
    sample is lost), and the caller exports it as a document. *)
Lemma index_failure_returns_partial_list :
  get_speed_limit Examples.failing_index 44.3 20.4 6
  = Raise (LookupFailure "index unavailable")
  /\ calls (check_metadata_file_violations
              (Examples.file Examples.trip_failing) Examples.failing_index 10
              initial_globals)
     = [(44.1, 20.4); (44.2, 20.4); (44.3, 20.4)]%float
  /\ map timestamp_us
       (returned (check_metadata_file_violations
                    (Examples.file Examples.trip_failing) Examples.failing_index 10
                    initial_globals))
     = [1000000]
  /\ exists doc,
       fst (process_file Examples.failing_index 10
              (Examples.file Examples.trip_failing) initial_globals) = Ok doc
       /\ map timestamp (list_of_timeline_events doc) = [1%float].
Proof.
  split; [vm_compute; reflexivity|].
  split; [vm_compute; reflexivity|].
  split; [vm_compute; reflexivity|].
  eexists. split; vm_compute; reflexivity.
Qed.

(** ** The coordinate cache *)

Lemma judge_entry_frame thr e ts lat lon speed info st :
  coordinate_cache (outcome_state (judge_entry thr e ts lat lon speed info st))
  = coordinate_cache st
  /\ resolver_calls (outcome_state (judge_entry thr e ts lat lon speed info st))
     = resolver_calls st.
Proof.
  unfold judge_entry. destruct info as [i|]; simpl.
  - destruct (PyNum.gt speed _); simpl.
    + destruct (build_violation _ _ _ _ _ _); simpl;
        auto using keep_best_cache, keep_best_calls.
    + auto using flush_run_cache, flush_run_calls.
  - auto using flush_run_cache, flush_run_calls.
Qed.

Lemma NoDup_snoc_key (l : list (float * float)) p :
  List.NoDup (map key_of l) ->
  ~ In (key_of p) (map key_of l) ->
  List.NoDup (map key_of (l ++ [p])).
Proof.
  intros Hnd Hnot. rewrite map_app. simpl.
  apply List.NoDup_app.
  - exact Hnd.
  - constructor; [intros []|constructor].
  - intros k Hk [<-|[]]. contradiction.
Qed.

Lemma loop_body_calls_cached cache thr st e :
  calls_cached st ->
  match loop_body cache thr st e with
  | Next st' => calls_cached st'
  | Stop _ st' => List.NoDup (map key_of (resolver_calls st'))
  end.
Proof.
  intros [Hin Hnd].
  assert (Hflush : forall g, calls_cached (flush_run (set_glob g st))).
  { intros g. unfold calls_cached.
    rewrite flush_run_cache, flush_run_calls. split; assumption. }
  assert (Hflush' : forall g, calls_cached (flush_run (count_entry (set_glob g st)))).
  { intros g. unfold calls_cached.
    rewrite flush_run_cache, flush_run_calls. split; assumption. }
  unfold loop_body.
  destruct (latitude e) as [lat|]; [|apply Hflush].
  destruct (longitude e) as [lon|]; [|apply Hflush].
  destruct (displaySpeed e) as [speed|]; [|apply Hflush].
  destruct (PyNum.le speed 0); [apply Hflush'|].
  simpl coordinate_cache.
  destruct (coordinate_cache st !! coord_key lat lon) as [info|] eqn:Hk.
  - match goal with
    | |- context [judge_entry ?t ?e ?ts ?a ?b ?s ?i ?st0] =>
        destruct (judge_entry_frame t e ts a b s i st0) as [Hc Hr];
        destruct (judge_entry t e ts a b s i st0) as [st'|ex st']
    end; simpl in Hc, Hr.
    + unfold calls_cached. rewrite Hc, Hr. split; assumption.
    + rewrite Hr. exact Hnd.
  - assert (Hnew : List.NoDup (map key_of (resolver_calls st ++ [(lat, lon)]))).
    { apply NoDup_snoc_key; [exact Hnd|].
      intros Hk'. apply in_map_iff in Hk'. destruct Hk' as (p & Hp & Hpin).
      apply (Hin p Hpin). rewrite Hp. exact Hk. }
    destruct (find_speed_limit_for_coordinate cache lat lon 6) as [info|ex].
    + match goal with
      | |- context [judge_entry ?t ?e ?ts ?a ?b ?s ?i ?st0] =>
          destruct (judge_entry_frame t e ts a b s i st0) as [Hc Hr];
          destruct (judge_entry t e ts a b s i st0) as [st'|ex st']
      end; simpl in Hc, Hr.
      * unfold calls_cached. rewrite Hc, Hr. split; [|exact Hnew].
        intros p Hp. apply in_app_or in Hp. destruct Hp as [Hp|[<-|[]]].
        -- destruct (decide (coord_key lat lon = key_of p)) as [Heq|Hne].
           ++ rewrite <- Heq, lookup_insert_eq. discriminate.
           ++ rewrite lookup_insert_ne by exact Hne. now apply Hin.
        -- unfold key_of. simpl. rewrite lookup_insert_eq. discriminate.
      * rewrite Hr. exact Hnew.
    + exact Hnew.
Qed.

Lemma run_loop_calls_cached cache thr entries :
  forall st,
    calls_cached st ->
    List.NoDup (map key_of (resolver_calls
                              (outcome_state (run_loop cache thr st entries)))).
Proof.
  induction entries as [|e rest IH]; intros st Hst; simpl.
  - apply Hst.
  - pose proof (loop_body_calls_cached cache thr st e Hst) as H.
    destruct (loop_body cache thr st e) as [st'|ex st']; [now apply IH|exact H].
Qed.

(** No key is resolved twice in one pass. *)
Lemma check_calls_once metadata cache thr g :
  List.NoDup (map key_of (calls (check_metadata_file_violations metadata cache thr g))).
Proof.
  unfold check_metadata_file_violations.
  destruct (content metadata) as [[entries|]|ex]; simpl; try constructor.
  pose proof (run_loop_calls_cached cache thr entries (fresh_locals g)) as H.
  destruct (run_loop cache thr (fresh_locals g) entries) as [st|ex st]; simpl in *.
  - rewrite flush_run_calls. apply H. split; [intros p []|constructor].
  - apply H. split; [intros p []|constructor].
Qed.

(** *** The pass with the cache against the pass without *)

Lemma flush_run_same_core a b :
  same_core a b -> same_core (flush_run a) (flush_run b).
Proof.
  intros [Hv Hb]. split.
  - now rewrite !flush_run_violations, Hv, Hb.
  - now rewrite !flush_run_best.
Qed.

Lemma keep_best_same_core v a b :
  same_core a b -> same_core (keep_best v a) (keep_best v b).
Proof.
  intros [Hv Hb]. split.
  - now rewrite !keep_best_violations.
  - unfold keep_best. rewrite Hb.
    destruct (current_run_best b) eqn:E; [|reflexivity].
    destruct (PyNum.gt _ _); simpl; congruence.
Qed.

Lemma judge_entry_same_core thr e ts lat lon speed info a b :
  same_core a b ->
  outcomes_agree (judge_entry thr e ts lat lon speed info a)
                 (judge_entry thr e ts lat lon speed info b).
Proof.
  intros H. unfold judge_entry. destruct info as [i|]; simpl.
  - destruct (PyNum.gt speed _); simpl.
    + destruct (build_violation _ _ _ _ _ _); simpl;
        auto using keep_best_same_core.
    + now apply flush_run_same_core.
  - now apply flush_run_same_core.
Qed.

Section CacheAgainstDirect.

Variable cache : OSMSpeedLimitsCache.
Variable violation_threshold : float.
Variable all_entries : list entry.
Hypothesis consistent : key_consistent cache all_entries.

Lemma cache_sound_frame st st' :
  coordinate_cache st' = coordinate_cache st ->
  cache_sound cache all_entries st -> cache_sound cache all_entries st'.
Proof. unfold cache_sound. intros ->. auto. Qed.

Lemma loop_bodies_agree st_c st_d e :
  In e all_entries -> cache_sound cache all_entries st_c ->
  same_core st_c st_d ->
  outcomes_agree (loop_body cache violation_threshold st_c e)
                 (loop_body_direct cache violation_threshold st_d e)
  /\ cache_sound cache all_entries
       (outcome_state (loop_body cache violation_threshold st_c e)).
Proof.
  intros He Hsound Hcore.
  assert (Hcore' : forall f_c f_d : locals -> locals,
             (forall st, violations (f_c st) = violations st) ->
             (forall st, current_run_best (f_c st) = current_run_best st) ->
             (forall st, violations (f_d st) = violations st) ->
             (forall st, current_run_best (f_d st) = current_run_best st) ->
             same_core (f_c st_c) (f_d st_d)).
  { intros f_c f_d H1 H2 H3 H4. destruct Hcore as [Hv Hb].
    split; [now rewrite H1, H3|now rewrite H2, H4]. }
  assert (Hsound' : forall st, coordinate_cache st = coordinate_cache st_c ->
                               cache_sound cache all_entries st).
  { intros st Hst. exact (cache_sound_frame st_c st Hst Hsound). }
  assert (Hflush : forall g g',
             outcomes_agree (Next (flush_run (set_glob g st_c)))
                            (Next (flush_run (set_glob g' st_d)))
             /\ cache_sound cache all_entries (flush_run (set_glob g st_c))).
  { intros g g'. split.
    - apply flush_run_same_core.
      apply (Hcore' (set_glob g) (set_glob g')); reflexivity.
    - apply Hsound'. rewrite flush_run_cache. reflexivity. }
  pose proof (eq_refl (lookup_site e)) as Hsite. unfold lookup_site at 2 in Hsite.
  unfold loop_body, loop_body_direct.
  destruct (latitude e) as [lat|]; [|apply Hflush].
  destruct (longitude e) as [lon|]; [|apply Hflush].
  destruct (displaySpeed e) as [speed|]; [|apply Hflush].
  destruct (PyNum.le speed 0).
  { split.
    - apply flush_run_same_core.
      apply (Hcore' (fun st => count_entry (set_glob _ st))
                    (fun st => count_entry (set_glob _ st))); reflexivity.
    - apply Hsound'. cbn [outcome_state]. rewrite flush_run_cache. reflexivity. }
  simpl coordinate_cache.
  destruct (coordinate_cache st_c !! coord_key lat lon) as [info|] eqn:Hk.
  - destruct (Hsound _ _ Hk) as (e0 & p0 & He0 & Hs0 & Hk0 & Hf0).
    pose proof (consistent e0 e p0 (lat, lon) He0 He Hs0 Hsite Hk0) as Hsame.
    simpl in Hsame. rewrite <- Hsame, Hf0.
    split.
    + apply judge_entry_same_core.
      apply (Hcore' (fun st => count_entry (set_glob _ st))
                    (fun st => log_resolver_call lat lon
                                 (count_entry (set_glob _ st)))); reflexivity.
    + apply Hsound'.
      match goal with
      | |- context [judge_entry ?t ?e ?ts ?a ?b ?s ?i ?st0] =>
          rewrite (proj1 (judge_entry_frame t e ts a b s i st0))
      end.
      reflexivity.
  - destruct (find_speed_limit_for_coordinate cache lat lon 6) as [info|ex] eqn:Hf.
    + split.
      * apply judge_entry_same_core.
        apply (Hcore' (fun st => store_lookup _ info
                                   (log_resolver_call lat lon
                                      (count_entry (set_glob _ st))))
                      (fun st => log_resolver_call lat lon
                                   (count_entry (set_glob _ st)))); reflexivity.
      * match goal with
        | |- context [judge_entry ?t ?e ?ts ?a ?b ?s ?i ?st0] =>
            apply (cache_sound_frame st0);
              [exact (proj1 (judge_entry_frame t e ts a b s i st0))|]
        end.
        intros k r. simpl.
        destruct (decide (coord_key lat lon = k)) as [<-|Hne].
        -- rewrite lookup_insert_eq. intros [= <-].
           exists e, (lat, lon). auto.
        -- rewrite lookup_insert_ne by exact Hne. apply Hsound.
    + split.
      * split; [reflexivity|].
        apply (Hcore' (fun st => log_resolver_call lat lon
                                   (count_entry (set_glob _ st)))
                      (fun st => log_resolver_call lat lon
                                   (count_entry (set_glob _ st)))); reflexivity.
      * apply Hsound'. reflexivity.
Qed.

Lemma run_loops_agree entries :
  forall st_c st_d,
    (forall e, In e entries -> In e all_entries) ->
    cache_sound cache all_entries st_c -> same_core st_c st_d ->
    outcomes_agree (run_loop cache violation_threshold st_c entries)
                   (run_loop_direct cache violation_threshold st_d entries).
Proof.
  induction entries as [|e rest IH]; intros st_c st_d Hin Hsound Hcore; simpl.
  - exact Hcore.
  - destruct (loop_bodies_agree st_c st_d e) as [Hagree Hsound'];
      [apply Hin; left; reflexivity|exact Hsound|exact Hcore|].
    destruct (loop_body cache violation_threshold st_c e) as [st_c'|ex st_c'],
             (loop_body_direct cache violation_threshold st_d e) as [st_d'|ex' st_d'];
      simpl in Hagree; try contradiction.
    + apply IH; [intros e' He'; apply Hin; right; exact He'|exact Hsound'|exact Hagree].
    + exact Hagree.
Qed.

End CacheAgainstDirect.

(** With a resolver that answers alike on samples sharing a key, the pass
    returns what the pass without the cache returns. *)
Lemma check_returns_as_direct cache thr g name entries :
  key_consistent cache entries ->
  returned (check_metadata_file_violations
              {| file_name := name; content := Ok (Some entries) |} cache thr g)
  = returned_direct cache thr g entries.
Proof.
  intros Hcons. rewrite check_on_entries. unfold returned_direct.
  assert (H : outcomes_agree (run_loop cache thr (fresh_locals g) entries)
                             (run_loop_direct cache thr (fresh_locals g) entries)).
  { apply (run_loops_agree cache thr entries Hcons entries).
    - auto.
    - intros k r Hk. simpl in Hk. rewrite lookup_empty in Hk. discriminate.
    - split; reflexivity. }
  destruct (run_loop cache thr (fresh_locals g) entries) as [st|ex st],
           (run_loop_direct cache thr (fresh_locals g) entries) as [st'|ex' st'];
    simpl in H; try contradiction.
  - cbn [returned]. apply (flush_run_same_core st st' H).
  - cbn [returned]. apply H.
Qed.

(** C6, as the code has it.  In an iteration that reaches the lookup: on a
    miss the resolver is called once and its result, [None] included, is
    stored under the key; on a hit the stored result is used and the
    resolver is not called.  Over a whole pass no key is resolved twice.
    The pass returns what a pass calling the resolver on every sample
    returns, provided the resolver answers alike on the samples of the
    stream that share a key. *)
Theorem cache_resolves_each_key_once cache thr g file_name entries :
  (forall st e lat lon speed info,
      latitude e = Some lat -> longitude e = Some lon ->
      displaySpeed e = Some speed -> PyNum.le speed 0 = false ->
      coordinate_cache st !! coord_key lat lon = None ->
      find_speed_limit_for_coordinate cache lat lon 6 = Ok info ->
      resolver_calls (outcome_state (loop_body cache thr st e))
      = resolver_calls st ++ [(lat, lon)]
      /\ coordinate_cache (outcome_state (loop_body cache thr st e))
           !! coord_key lat lon = Some info)
  /\ (forall st e lat lon speed info,
      latitude e = Some lat -> longitude e = Some lon ->
      displaySpeed e = Some speed -> PyNum.le speed 0 = false ->
      coordinate_cache st !! coord_key lat lon = Some info ->
      loop_body cache thr st e
      = judge_entry thr e (default 0 (timestampUs e)) lat lon speed info
          (count_entry
             (set_glob (track_globals (default 0 (timestampUs e)) (glob st)) st))
      /\ resolver_calls (outcome_state (loop_body cache thr st e))
         = resolver_calls st)
  /\ List.NoDup
       (map key_of
          (calls (check_metadata_file_violations
                    {| file_name := file_name; content := Ok (Some entries) |}
                    cache thr g)))
  /\ (key_consistent cache entries ->
      returned (check_metadata_file_violations
                  {| file_name := file_name; content := Ok (Some entries) |}
                  cache thr g)
      = returned_direct cache thr g entries).
Proof.
  split; [|split; [|split]].
  - intros st e lat lon speed info Hlat Hlon Hspeed Hpos Hmiss Hfind.
    unfold loop_body. rewrite Hlat, Hlon, Hspeed, Hpos.
    simpl coordinate_cache. rewrite Hmiss, Hfind.
    match goal with
    | |- context [judge_entry ?t ?e ?ts ?a ?b ?s ?i ?st0] =>
        destruct (judge_entry_frame t e ts a b s i st0) as [Hc Hr]
    end.
    rewrite Hc, Hr. simpl. split; [reflexivity|apply lookup_insert_eq].
  - intros st e lat lon speed info Hlat Hlon Hspeed Hpos Hhit.
    unfold loop_body. rewrite Hlat, Hlon, Hspeed, Hpos.
    simpl coordinate_cache. rewrite Hhit. split; [reflexivity|].
    match goal with
    | |- context [judge_entry ?t ?e ?ts ?a ?b ?s ?i ?st0] =>
        rewrite (proj2 (judge_entry_frame t e ts a b s i st0))
    end.
    reflexivity.
  - apply check_calls_once.
  - apply check_returns_as_direct.
Qed.

(** Scenario D: on [Examples.trip_same_place] the two samples share their
    coordinate, hence the resolver's answer, also with the index whose
    nearest road drifts. *)
Lemma cache_resolves_each_key_once_witness :
  returned (check_metadata_file_violations
              (Examples.file Examples.trip_same_place) Examples.drifting_index 10
              initial_globals)
  = returned_direct Examples.drifting_index 10 initial_globals
      Examples.trip_same_place.
Proof.
  apply (cache_resolves_each_key_once Examples.drifting_index 10 initial_globals
           "trip" Examples.trip_same_place).
  intros e1 e2 p1 p2 H1 H2 Hs1 Hs2 _.
  destruct H1 as [<-|[<-|[]]], H2 as [<-|[<-|[]]];
    vm_compute in Hs1, Hs2;
    injection Hs1 as <-; injection Hs2 as <-; reflexivity.
Defined.

(** Scenario D: one resolver call for the two samples. *)
Example trip_same_place_calls :
  calls (check_metadata_file_violations
           (Examples.file Examples.trip_same_place) Examples.index50 10
           initial_globals)
  = [(44.123456, 20.654321)]%float
  /\ coord_key 44.123456 20.654321 = "44.123456,20.654321".
Proof. split; vm_compute; reflexivity. Qed.

(** C6, as stated, fails.  On [Examples.trip_drifting] the two samples share
    the key but the nearest road differs: with the cache the second sample
    is judged against the limit 50 stored for the first and the run is
    [100, 110]; called directly, the resolver gives it the limit 130, which
    closes the run after the first sample. *)
Lemma cached_pass_differs_from_direct :
  key_of (44.1234561, 20.4)%float = key_of (44.1234564, 20.4)%float
  /\ find_speed_limit_for_coordinate Examples.drifting_index 44.1234561 20.4 6
     <> find_speed_limit_for_coordinate Examples.drifting_index 44.1234564 20.4 6
  /\ map (fun v => (timestamp_us v, speed_limit_kmh v))
       (returned (check_metadata_file_violations
                    (Examples.file Examples.trip_drifting)
                    Examples.drifting_index 10 initial_globals))
     = [(2000000, 50%float)]
  /\ map (fun v => (timestamp_us v, speed_limit_kmh v))
       (returned_direct Examples.drifting_index 10 initial_globals
          Examples.trip_drifting)
     = [(1000000, 50%float)].
Proof.
  split; [vm_compute; reflexivity|].
  split; [vm_compute; discriminate|].
  split; vm_compute; reflexivity.
Qed.

(** ** The text of a speed limit *)

Module TextFacts.

Import TextSpec.

#[local] Arguments String.append !_ _ / : simpl nomatch.

Lemma append_assoc (a b c : string) : ((a ++ b) ++ c = a ++ (b ++ c))%string.
Proof. induction a as [|x a IH]; simpl; [reflexivity|now rewrite IH]. Qed.

(** *** [strip] *)

Lemma lstrip_spec s :
  exists l,
    s = (l ++ PyStr.lstrip s)%string
    /\ all_chars PyStr.is_space l = true
    /\ head_is PyStr.is_space (PyStr.lstrip s) = false.
Proof.
  induction s as [|c t IH]; simpl.
  - exists "". auto.
  - destruct (PyStr.is_space c) eqn:Hc.
    + destruct IH as (l & Hl & Hall & Hhead).
      exists (String c l). simpl. rewrite Hc, Hall, <- Hl. auto.
    + exists "". simpl. auto.
Qed.

Lemma rstrip_spec s :
  exists r,
    s = (PyStr.rstrip s ++ r)%string
    /\ all_chars PyStr.is_space r = true
    /\ last_is PyStr.is_space (PyStr.rstrip s) = false.
Proof.
  induction s as [|c t IH]; simpl.
  - exists "". auto.
  - destruct IH as (r & Hr & Hall & Hlast).
    destruct (PyStr.rstrip t) as [|d t'] eqn:Ht.
    + simpl in Hr. subst t.
      destruct (PyStr.is_space c) eqn:Hc.
      * exists (String c r). simpl. rewrite Hc, Hall. auto.
      * exists r. simpl. rewrite Hc. auto.
    + exists r. simpl in *. rewrite <- Hr. auto.
Qed.

Lemma rstrip_head s :
  head_is PyStr.is_space s = false ->
  head_is PyStr.is_space (PyStr.rstrip s) = false.
Proof.
  destruct s as [|c t]; simpl; [auto|]. intros Hc.
  destruct (PyStr.rstrip t); [rewrite Hc|]; simpl; auto.
Qed.

Lemma strip_trimmed s : trimmed s (PyStr.strip s).
Proof.
  unfold trimmed, PyStr.strip.
  destruct (lstrip_spec s) as (l & Hl & Hlall & Hhead).
  destruct (rstrip_spec (PyStr.lstrip s)) as (r & Hr & Hrall & Hlast).
  exists l, r. split; [now rewrite <- Hr|].
  auto using rstrip_head.
Qed.

(** *** The first numeric token *)

Lemma span_digits_spec s :
  s = (fst (PyStr.span_digits s) ++ snd (PyStr.span_digits s))%string
  /\ all_chars PyStr.is_digit (fst (PyStr.span_digits s)) = true
  /\ head_is PyStr.is_digit (snd (PyStr.span_digits s)) = false.
Proof.
  induction s as [|c t IH]; simpl; [auto|].
  destruct (PyStr.is_digit c) eqn:Hc.
  - destruct (PyStr.span_digits t) as [ds rest]. simpl in *.
    destruct IH as (Ht & Hall & Hhead). rewrite Hc, Hall, <- Ht. auto.
  - simpl. rewrite Hc. auto.
Qed.

Lemma span_digits_empty s :
  fst (PyStr.span_digits s) = "" -> head_is PyStr.is_digit s = false.
Proof.
  destruct s as [|c t]; simpl; [auto|].
  destruct (PyStr.is_digit c); [|auto].
  destruct (PyStr.span_digits t); discriminate.
Qed.

(** The conditions on a token found at the head of [s]. *)
Lemma match_number_here_spec s tok :
  PyStr.match_number_here s = Some tok ->
  exists after,
    s = (token_text tok ++ after)%string
    /\ PyStr.int_digits tok <> ""
    /\ all_chars PyStr.is_digit (PyStr.int_digits tok) = true
    /\ all_chars PyStr.is_digit (PyStr.frac_digits tok) = true
    /\ head_is PyStr.is_digit after = false
    /\ (PyStr.frac_digits tok = "" ->
        forall rest, after = String "."%char rest ->
                     head_is PyStr.is_digit rest = false).
Proof.
  unfold PyStr.match_number_here.
  destruct (span_digits_spec s) as (Hs & Hall & Hhead).
  destruct (PyStr.span_digits s) as [ds rest]. simpl in *.
  destruct ds as [|d ds]; [discriminate|].
  destruct rest as [|c rest'].
  - intros [= <-]. exists "". unfold token_text. simpl.
    repeat split; auto; discriminate.
  - destruct (Ascii.eqb_spec c ".") as [->|Hne].
    + intros [= <-].
      destruct (span_digits_spec rest') as (Hr & Hrall & Hrhead).
      destruct (PyStr.span_digits rest') as [fs rest2] eqn:Hspan. simpl in *.
      unfold token_text. simpl.
      destruct fs as [|f fs].
      * exists (String "." rest'). simpl in *. subst rest2.
        repeat split; auto; try discriminate.
        intros _ rest [= <-]. exact Hrhead.
      * exists rest2. rewrite Hs, Hr. simpl. rewrite append_assoc. simpl.
        repeat split; auto; discriminate.
    + intros [= <-]. exists (String c rest'). unfold token_text. simpl.
      repeat split; auto; try discriminate.
      intros _ rest [= -> _]. now destruct Hne.
Qed.

Lemma match_number_here_none s :
  PyStr.match_number_here s = None -> head_is PyStr.is_digit s = false.
Proof.
  unfold PyStr.match_number_here. intros H. apply span_digits_empty.
  destruct (PyStr.span_digits s) as [[|d ds] rest]; [reflexivity|].
  destruct rest as [|c rest']; [discriminate|].
  destruct (Ascii.eqb c "."); discriminate.
Qed.

Lemma search_number_sound s tok :
  PyStr.search_number s = Some tok -> first_numeric_token s tok.
Proof.
  induction s as [|c t IH].
  - unfold PyStr.search_number.
    destruct (PyStr.match_number_here "") eqn:Hm; [|discriminate].
    intros [= <-]. apply match_number_here_spec in Hm.
    destruct Hm as (after & H). exists "", after. simpl. tauto.
  - simpl PyStr.search_number.
    destruct (PyStr.match_number_here (String c t)) eqn:Hm.
    + intros [= <-]. apply match_number_here_spec in Hm.
      destruct Hm as (after & H). exists "", after. simpl. tauto.
    + intros Hs. apply match_number_here_none in Hm. simpl in Hm.
      destruct (IH Hs) as (before & after & Ht & Hb & H).
      exists (String c before), after. simpl. rewrite Hm, Hb, <- Ht. tauto.
Qed.

Lemma search_number_none s :
  PyStr.search_number s = None <-> has_no_digit s.
Proof.
  unfold has_no_digit. induction s as [|c t IH].
  - simpl. unfold PyStr.match_number_here. simpl. tauto.
  - simpl PyStr.search_number. simpl all_chars.
    destruct (PyStr.match_number_here (String c t)) eqn:Hm.
    + split; [discriminate|]. intros H.
      apply andb_true_iff in H. destruct H as [Hc _].
      unfold PyStr.match_number_here in Hm. simpl in Hm.
      apply negb_true_iff in Hc. rewrite Hc in Hm. discriminate.
    + apply match_number_here_none in Hm. simpl in Hm. rewrite Hm. simpl.
      exact IH.
Qed.

Lemma span_digits_app ds rest :
  all_chars PyStr.is_digit ds = true ->
  head_is PyStr.is_digit rest = false ->
  PyStr.span_digits (ds ++ rest) = (ds, rest).
Proof.
  intros Hds Hrest. induction ds as [|d ds IH]; simpl in *.
  - destruct rest as [|c rest]; simpl in *; [reflexivity|].
    now rewrite Hrest.
  - apply andb_true_iff in Hds. destruct Hds as [Hd Hds].
    rewrite Hd, (IH Hds). reflexivity.
Qed.

Lemma match_number_here_complete tok after :
  PyStr.int_digits tok <> "" ->
  all_chars PyStr.is_digit (PyStr.int_digits tok) = true ->
  all_chars PyStr.is_digit (PyStr.frac_digits tok) = true ->
  head_is PyStr.is_digit after = false ->
  (PyStr.frac_digits tok = "" ->
   forall rest, after = String "."%char rest ->
                head_is PyStr.is_digit rest = false) ->
  PyStr.match_number_here (token_text tok ++ after) = Some tok.
Proof.
  destruct tok as [ds fs]. unfold token_text. simpl.
  intros Hne Hds Hfs Hafter Hpoint.
  unfold PyStr.match_number_here.
  destruct fs as [|f fs].
  - rewrite (span_digits_app ds after Hds Hafter).
    destruct ds as [|d ds]; [now destruct Hne|].
    destruct after as [|c rest]; [reflexivity|].
    destruct (Ascii.eqb_spec c ".") as [->|_]; [|reflexivity].
    specialize (Hpoint eq_refl rest eq_refl).
    pose proof (span_digits_app "" rest eq_refl Hpoint) as Hspan.
    simpl in Hspan. rewrite Hspan. reflexivity.
  - rewrite append_assoc. simpl String.append.
    pose proof (span_digits_app ds (String "." (String f (fs ++ after)))
                  Hds eq_refl) as Hint.
    rewrite Hint.
    destruct ds as [|d ds]; [now destruct Hne|].
    rewrite Ascii.eqb_refl.
    pose proof (span_digits_app (String f fs) after Hfs Hafter) as Hfrac.
    simpl String.append in Hfrac. rewrite Hfrac. reflexivity.
Qed.

Lemma search_number_unfold s :
  PyStr.search_number s
  = match PyStr.match_number_here s with
    | Some tok => Some tok
    | None =>
        match s with
        | EmptyString => None
        | String _ t => PyStr.search_number t
        end
    end.
Proof. destruct s; reflexivity. Qed.

(** The search finds the first numeric token, whichever it is: the token
    is unique. *)
Lemma search_number_complete s tok :
  first_numeric_token s tok -> PyStr.search_number s = Some tok.
Proof.
  intros (before & after & -> & Hbefore & Hne & Hds & Hfs & Hafter & Hpoint).
  pose proof (match_number_here_complete tok after Hne Hds Hfs Hafter Hpoint)
    as Hhere.
  induction before as [|c before IH]; rewrite search_number_unfold.
  - simpl String.append. now rewrite Hhere.
  - simpl in Hbefore. apply andb_true_iff in Hbefore.
    destruct Hbefore as [Hc Hbefore]. apply negb_true_iff in Hc.
    simpl String.append.
    assert (Hnone : PyStr.match_number_here
                      (String c (before ++ token_text tok ++ after)) = None).
    { unfold PyStr.match_number_here. simpl. now rewrite Hc. }
    rewrite Hnone. exact (IH Hbefore).
Qed.

(** *** Substrings *)

Lemma prefix_spec sub s :
  String.prefix sub s = true <-> exists b, s = (sub ++ b)%string.
Proof.
  revert s. induction sub as [|x sub IH]; intros s.
  - destruct s; simpl; split; eauto.
  - destruct s as [|y s]; simpl.
    + split; [discriminate|]. intros [b Hb]. discriminate.
    + destruct (ascii_dec x y) as [->|Hne].
      * rewrite IH. split; intros [b Hb]; exists b; congruence.
      * split; [discriminate|]. intros [b [= Hxy _]]. congruence.
Qed.

Lemma contains_unfold sub s :
  PyStr.contains sub s
  = if String.prefix sub s then true
    else match s with
         | EmptyString => false
         | String _ t => PyStr.contains sub t
         end.
Proof. destruct s; reflexivity. Qed.

Lemma contains_spec sub s :
  PyStr.contains sub s = true <-> exists a b, s = (a ++ sub ++ b)%string.
Proof.
  split.
  - induction s as [|c t IH]; rewrite contains_unfold;
      destruct (String.prefix sub _) eqn:Hp.
    + intros _. apply prefix_spec in Hp. destruct Hp as [b Hb].
      exists "", b. exact Hb.
    + discriminate.
    + intros _. apply prefix_spec in Hp. destruct Hp as [b Hb].
      exists "", b. exact Hb.
    + intros H. destruct (IH H) as (a & b & ->).
      exists (String c a), b. reflexivity.
  - intros (a & b & ->). induction a as [|c a IH]; rewrite contains_unfold.
    + assert (Hp : String.prefix sub ("" ++ sub ++ b) = true)
        by (apply prefix_spec; eauto).
      rewrite Hp. reflexivity.
    + destruct (String.prefix sub _); [reflexivity|]. exact IH.
Qed.

Lemma mentions_mph_spec s :
  PyStr.contains "mph" (PyStr.lower s) = true <-> mentions_mph s.
Proof. apply contains_spec. Qed.

Lemma dict_get_unknown s :
  ~ known_code s -> dict_get text_limits s = None.
Proof.
  unfold known_code. simpl. intros H.
  repeat match goal with
         | |- context [String.eqb ?a ?b] =>
             destruct (String.eqb_spec a b) as [->|_]; [exfalso; tauto|]
         end.
  reflexivity.
Qed.

End TextFacts.

(** The function on a string, in one piece: the empty string fares as any
    string without a known code or a digit. *)
Lemma parse_speed_limit_string s :
  parse_speed_limit (VStr s)
  = match dict_get text_limits (PyStr.strip s) with
    | Some r => r
    | None =>
        match PyStr.search_number (PyStr.strip s) with
        | Some tok =>
            if PyStr.contains "mph" (PyStr.lower (PyStr.strip s))
            then Some (PrimFloat.mul (PyStr.float_of_token tok) mph_factor)
            else Some (PyStr.float_of_token tok)
        | None => None
        end
    end.
Proof. destruct s; reflexivity. Qed.

(** C5.  The text is trimmed of white space first.  A trimmed text that is a
    code of the table gives the table's value: 50 for urban, 80 for rural,
    100 for trunk, 120 for motorway, the same with the prefix RS:, 5 for
    walk, and no value for none.  Any other text gives no value when it holds
    no digit; otherwise it has a first numeric token, and the value is that
    token's number, times 1.60934 when the text contains mph in any letter
    case.  So "60 mph" gives 60 * 1.60934, which is the float 96.5604. *)
Theorem parse_speed_limit_text :
  (forall s,
      let t := PyStr.strip s in
      TextSpec.trimmed s t
      /\ (t = "urban" \/ t = "RS:urban" ->
          parse_speed_limit (VStr s) = Some 50%float)
      /\ (t = "rural" \/ t = "RS:rural" ->
          parse_speed_limit (VStr s) = Some 80%float)
      /\ (t = "trunk" \/ t = "RS:trunk" ->
          parse_speed_limit (VStr s) = Some 100%float)
      /\ (t = "motorway" \/ t = "RS:motorway" ->
          parse_speed_limit (VStr s) = Some 120%float)
      /\ (t = "walk" -> parse_speed_limit (VStr s) = Some 5%float)
      /\ (t = "none" -> parse_speed_limit (VStr s) = None)
      /\ (~ TextSpec.known_code t ->
          (TextSpec.has_no_digit t -> parse_speed_limit (VStr s) = None)
          /\ (~ TextSpec.has_no_digit t ->
              exists tok, TextSpec.first_numeric_token t tok)
          /\ (forall tok,
                TextSpec.first_numeric_token t tok ->
                (TextSpec.mentions_mph t ->
                 parse_speed_limit (VStr s)
                 = Some (PrimFloat.mul (PyStr.float_of_token tok) 1.60934))
                /\ (~ TextSpec.mentions_mph t ->
                    parse_speed_limit (VStr s)
                    = Some (PyStr.float_of_token tok)))))
  /\ parse_speed_limit (VStr "60 mph") = Some (PrimFloat.mul 60 1.60934)
  /\ PrimFloat.mul 60 1.60934 = 96.5604%float.
Proof.
  split; [|split; vm_compute; reflexivity].
  intros s t. rewrite parse_speed_limit_string. fold t.
  split; [apply TextFacts.strip_trimmed|].
  split; [intros [->| ->]; reflexivity|].
  split; [intros [->| ->]; reflexivity|].
  split; [intros [->| ->]; reflexivity|].
  split; [intros [->| ->]; reflexivity|].
  split; [intros ->; reflexivity|].
  split; [intros ->; reflexivity|].
  intros Hunknown. rewrite (TextFacts.dict_get_unknown t Hunknown).
  split; [|split].
  - intros Hnone. apply TextFacts.search_number_none in Hnone.
    now rewrite Hnone.
  - intros Hdigit.
    destruct (PyStr.search_number t) as [tok|] eqn:Hsearch.
    + exists tok. now apply TextFacts.search_number_sound.
    + apply TextFacts.search_number_none in Hsearch. contradiction.
  - intros tok Htok.
    rewrite (TextFacts.search_number_complete t tok Htok).
    split.
    + intros Hmph. apply TextFacts.mentions_mph_spec in Hmph.
      now rewrite Hmph.
    + intros Hmph.
      destruct (PyStr.contains "mph" (PyStr.lower t)) eqn:Hc; [|reflexivity].
      apply TextFacts.mentions_mph_spec in Hc. contradiction.
Qed.

(** The text ["  30 MPH zone "]: trimmed it is no code of the table, its
    first numeric token is 30 and it has mph in capitals. *)
Lemma parse_speed_limit_text_witness :
  parse_speed_limit (VStr "  30 MPH zone ")
  = Some (PrimFloat.mul
            (PyStr.float_of_token
               {| PyStr.int_digits := "30"; PyStr.frac_digits := "" |})
            1.60934).
Proof.
  destruct (proj1 parse_speed_limit_text "  30 MPH zone ")
    as (_ & _ & _ & _ & _ & _ & _ & H).
  destruct H as (_ & _ & H).
  { unfold TextSpec.known_code. vm_compute. intuition discriminate. }
  apply (H {| PyStr.int_digits := "30"; PyStr.frac_digits := "" |}).
  - exists "", " MPH zone". vm_compute. repeat split; try discriminate.
  - exists "30 ", " zone". vm_compute. reflexivity.
Defined.

(** Some texts and their values. *)
Example parse_speed_limit_examples :
  parse_speed_limit (VStr "50") = Some 50%float
  /\ parse_speed_limit (VStr " 50 km/h ") = Some 50%float
  /\ parse_speed_limit (VStr "7.5") = Some 7.5%float
  /\ parse_speed_limit (VStr "RS:urban") = Some 50%float
  /\ parse_speed_limit (VStr "signals") = None
  /\ parse_speed_limit (VStr "") = None
  /\ parse_speed_limit (VStr "30 MPH") = Some (PrimFloat.mul 30 1.60934).
Proof. repeat split; vm_compute; reflexivity. Qed.

(** ** The module-level variables *)

Lemma flush_run_set_glob g st :
  flush_run (set_glob g st) = set_glob g (flush_run st).
Proof. unfold flush_run. simpl. destruct (current_run_best st); reflexivity. Qed.

Lemma keep_best_set_glob g v st :
  keep_best v (set_glob g st) = set_glob g (keep_best v st).
Proof.
  unfold keep_best. simpl. destruct (current_run_best st); [|reflexivity].
  destruct (PyNum.gt _ _); reflexivity.
Qed.

Lemma judge_entry_set_glob thr e ts lat lon speed info g st :
  judge_entry thr e ts lat lon speed info (set_glob g st)
  = map_outcome (set_glob g) (judge_entry thr e ts lat lon speed info st).
Proof.
  unfold judge_entry. destruct info as [i|]; simpl.
  - destruct (PyNum.gt speed _); simpl.
    + destruct (build_violation _ _ _ _ _ _); simpl;
        [now rewrite keep_best_set_glob|reflexivity].
    + now rewrite flush_run_set_glob.
  - now rewrite flush_run_set_glob.
Qed.

Lemma judge_entry_glob thr e ts lat lon speed info st :
  glob (outcome_state (judge_entry thr e ts lat lon speed info st)) = glob st.
Proof.
  unfold judge_entry. destruct info as [i|]; simpl.
  - destruct (PyNum.gt speed _); simpl.
    + destruct (build_violation _ _ _ _ _ _); simpl;
        [apply keep_best_glob|reflexivity].
    + apply flush_run_glob.
  - apply flush_run_glob.
Qed.

(** Every iteration leaves the timestamp of its sample in [end_global]. *)
Lemma loop_body_glob cache thr st e :
  glob (outcome_state (loop_body cache thr st e))
  = track_globals (default 0 (timestampUs e)) (glob st).
Proof.
  unfold loop_body.
  destruct (latitude e) as [lat|]; [|apply flush_run_glob].
  destruct (longitude e) as [lon|]; [|apply flush_run_glob].
  destruct (displaySpeed e) as [speed|]; [|apply flush_run_glob].
  destruct (PyNum.le speed 0); [apply flush_run_glob|].
  simpl coordinate_cache.
  destruct (coordinate_cache st !! coord_key lat lon) as [info|].
  - now rewrite judge_entry_glob.
  - destruct (find_speed_limit_for_coordinate cache lat lon 6); [|reflexivity].
    now rewrite judge_entry_glob.
Qed.

(** An iteration does not read the module-level variables. *)
Lemma loop_body_set_glob cache thr st e g :
  loop_body cache thr (set_glob g st) e
  = map_outcome (set_glob (track_globals (default 0 (timestampUs e)) g))
      (loop_body cache thr st e).
Proof.
  unfold loop_body.
  destruct (latitude e) as [lat|]; [|simpl; now rewrite <- flush_run_set_glob].
  destruct (longitude e) as [lon|]; [|simpl; now rewrite <- flush_run_set_glob].
  destruct (displaySpeed e) as [speed|];
    [|simpl; now rewrite <- flush_run_set_glob].
  destruct (PyNum.le speed 0); [simpl; now rewrite <- flush_run_set_glob|].
  simpl coordinate_cache.
  destruct (coordinate_cache st !! coord_key lat lon) as [info|].
  - now rewrite <- judge_entry_set_glob.
  - destruct (find_speed_limit_for_coordinate cache lat lon 6); [|reflexivity].
    now rewrite <- judge_entry_set_glob.
Qed.

Lemma run_loop_set_glob cache thr entries :
  forall st g,
    exists g',
      run_loop cache thr (set_glob g st) entries
      = map_outcome (set_glob g') (run_loop cache thr st entries)
      /\ (entries <> [] ->
          end_global g'
          = end_global (glob (outcome_state (run_loop cache thr st entries)))).
Proof.
  induction entries as [|e rest IH]; intros st g.
  - exists g. split; [reflexivity|]. intros H. now destruct H.
  - simpl. rewrite loop_body_set_glob.
    pose proof (loop_body_glob cache thr st e) as Hg.
    destruct (loop_body cache thr st e) as [st1|ex st1]; simpl in *.
    + destruct (IH st1 (track_globals (default 0 (timestampUs e)) g))
        as (g' & Hrun & Hend).
      destruct rest as [|e2 rest].
      * exists (track_globals (default 0 (timestampUs e)) g).
        split; [reflexivity|]. intros _. simpl. now rewrite Hg.
      * exists g'. split; [exact Hrun|]. intros _. apply Hend. discriminate.
    + exists (track_globals (default 0 (timestampUs e)) g).
      split; [reflexivity|]. intros _. now rewrite Hg.
Qed.

(** The export reads [end_global] only. *)
Lemma export_reads_end_global vs file_id g g' :
  end_global g = end_global g' ->
  export_violations_to_json vs file_id g = export_violations_to_json vs file_id g'.
Proof. unfold export_violations_to_json. now intros ->. Qed.

(** The document of a file that has at least one sample is the same
    whatever the module-level variables hold when the file is read. *)
Lemma document_of_nonempty_file cache thr name entries g g0 :
  entries <> [] ->
  fst (process_file cache thr {| file_name := name; content := Ok (Some entries) |} g)
  = fst (process_file cache thr
           {| file_name := name; content := Ok (Some entries) |} g0).
Proof.
  intros Hne. unfold process_file. cbn [fst]. rewrite !check_on_entries.
  destruct (run_loop_set_glob cache thr entries (fresh_locals g0) g)
    as (g' & Hrun & Hend).
  change (set_glob g (fresh_locals g0)) with (fresh_locals g) in Hrun.
  rewrite Hrun. specialize (Hend Hne).
  destruct (run_loop cache thr (fresh_locals g0) entries) as [st|ex st];
    cbn [map_outcome returned globals_after file_name outcome_state] in *.
  - rewrite flush_run_set_glob. cbn [violations glob set_glob].
    apply export_reads_end_global. now rewrite flush_run_glob.
  - apply export_reads_end_global. exact Hend.
Qed.

(** What the export writes when there is no violation. *)
Lemma export_without_violations file_id g t :
  PyNum.int_true_div (end_global g) us_per_s = Ok t ->
  export_violations_to_json [] file_id g
  = Ok {| doc_id := file_id; start_time := 0; end_time := t; score := 0;
          list_of_timeline_events := [] |}.
Proof. unfold export_violations_to_json. now intros ->. Qed.

(** An empty stream read in a fresh process. *)
Lemma empty_stream_in_fresh_process cache thr name :
  fst (process_file cache thr {| file_name := name; content := Ok (Some []) |}
         initial_globals)
  = Ok {| doc_id := name; start_time := 0; end_time := 0; score := 0;
          list_of_timeline_events := [] |}.
Proof. reflexivity. Qed.

(** C3: evaluation at the failing input.  The file [Examples.empty_file] is
    exported with [end_time] 0 when read first, and with [end_time] 6, the
    last timestamp of [Examples.trip], when read after that file: the same
    input and index give two documents. *)
Theorem leftover_end_global_reaches_output :
  snd (process_file Examples.index50 10 (Examples.file Examples.trip)
         initial_globals)
  = {| start_global := 1000000; end_global := 6000000 |}
  /\ fst (process_file Examples.index50 10 Examples.empty_file initial_globals)
     = Ok {| doc_id := "empty"; start_time := 0; end_time := 0; score := 0;
             list_of_timeline_events := [] |}
  /\ fst (process_file Examples.index50 10 Examples.empty_file
            {| start_global := 1000000; end_global := 6000000 |})
     = Ok {| doc_id := "empty"; start_time := 0; end_time := 6; score := 0;
             list_of_timeline_events := [] |}.
Proof. repeat split; vm_compute; reflexivity. Qed.

(** C9: evaluation at the failing input.  In a batch where
    [Examples.empty_file] follows [Examples.trip], the document of the empty
    stream has the full structure and no event, but its [end_time] is 6. *)
Theorem empty_stream_after_another_file :
  exists d1 d2,
    main_loop Examples.index50 main_violation_threshold
      [Examples.file Examples.trip; Examples.empty_file] initial_globals
    = Ok [d1; d2]
    /\ d2 = {| doc_id := "empty"; start_time := 0; end_time := 6; score := 0;
               list_of_timeline_events := [] |}.
Proof. do 2 eexists. split; vm_compute; reflexivity. Qed.

(** * Further properties *)

(** ** The export *)

Lemma insert_by_timestamp_perm v l :
  Permutation (insert_by_timestamp v l) (v :: l).
Proof.
  induction l as [|w l IH]; simpl; [reflexivity|].
  destruct (timestamp_us v <=? timestamp_us w); [reflexivity|].
  rewrite IH. apply perm_swap.
Qed.

Lemma sorted_by_timestamp_perm l : Permutation l (sorted_by_timestamp l).
Proof.
  induction l as [|v l IH]; simpl; [reflexivity|].
  rewrite insert_by_timestamp_perm. now constructor.
Qed.

Lemma insert_by_timestamp_sorted v l :
  StronglySorted Z.le (map timestamp_us l) ->
  StronglySorted Z.le (map timestamp_us (insert_by_timestamp v l)).
Proof.
  induction l as [|w l IH]; simpl; intros Hs.
  - repeat constructor.
  - inversion Hs as [|? ? Hs' Hall]; subst.
    destruct (Z.leb_spec (timestamp_us v) (timestamp_us w)) as [Hle|Hlt]; simpl.
    + constructor; [exact Hs|]. constructor; [exact Hle|].
      eapply Forall_impl; [exact Hall|]. intros z Hz. simpl in Hz. lia.
    + constructor; [now apply IH|].
      assert (Hperm : Permutation (map timestamp_us (insert_by_timestamp v l))
                        (timestamp_us v :: map timestamp_us l)).
      { change (timestamp_us v :: map timestamp_us l)
          with (map timestamp_us (v :: l)).
        apply Permutation_map, insert_by_timestamp_perm. }
      rewrite Hperm. constructor; [lia|exact Hall].
Qed.

Lemma sorted_by_timestamp_sorted l :
  StronglySorted Z.le (map timestamp_us (sorted_by_timestamp l)).
Proof.
  induction l as [|v l IH]; simpl; [constructor|].
  now apply insert_by_timestamp_sorted.
Qed.

(** The records of one timestamp keep their order. *)
Lemma insert_by_timestamp_stable k v l :
  List.filter (fun w => timestamp_us w =? k) (insert_by_timestamp v l)
  = List.filter (fun w => timestamp_us w =? k) (v :: l).
Proof.
  induction l as [|w l IH]; [reflexivity|].
  simpl insert_by_timestamp.
  destruct (Z.leb_spec (timestamp_us v) (timestamp_us w)) as [Hle|Hlt];
    [reflexivity|].
  simpl List.filter at 1. rewrite IH. simpl.
  destruct (Z.eqb_spec (timestamp_us w) k), (Z.eqb_spec (timestamp_us v) k);
    try reflexivity.
  lia.
Qed.

Lemma sorted_by_timestamp_stable k l :
  List.filter (fun w => timestamp_us w =? k) (sorted_by_timestamp l)
  = List.filter (fun w => timestamp_us w =? k) l.
Proof.
  induction l as [|v l IH]; [reflexivity|].
  simpl sorted_by_timestamp. rewrite insert_by_timestamp_stable.
  simpl. now rewrite IH.
Qed.

Lemma timeline_events_each l :
  forall evs,
    timeline_events l = Ok evs ->
    Forall2
      (fun v ev =>
         PyNum.int_true_div (timestamp_us v) us_per_s = Ok (timestamp ev)
         /\ ev_latitude ev = v_latitude v
         /\ ev_longitude ev = v_longitude v
         /\ speed_limit ev = speed_limit_kmh v
         /\ current_speed ev = speed_kmh v
         /\ detected_violation ev = 3)
      l evs.
Proof.
  induction l as [|v l IH]; simpl; intros evs.
  - intros [= <-]. constructor.
  - unfold timeline_event_of.
    destruct (PyNum.int_true_div (timestamp_us v) us_per_s) as [ts|] eqn:Hdiv;
      [|discriminate].
    simpl. destruct (timeline_events l) as [evs'|]; [|discriminate].
    simpl. intros [= <-]. constructor; [|now apply IH].
    simpl. repeat split. exact Hdiv.
Qed.

(** X1.  When the export writes a document, its events are the given
    records', one each, in ascending order of [timestamp_us], records of
    equal timestamp keeping their order; each event has its record's
    coordinates, limit and speed, the timestamp in seconds and the code 3.
    The document has the given id, start time 0, score 0 and [end_global] in
    seconds as end time. *)
Theorem export_orders_events vs file_id g doc :
  export_violations_to_json vs file_id g = Ok doc ->
  events_in_order vs doc
  /\ doc_id doc = file_id /\ start_time doc = 0 /\ score doc = 0
  /\ PyNum.int_true_div (end_global g) us_per_s = Ok (end_time doc).
Proof.
  unfold export_violations_to_json.
  destruct (PyNum.int_true_div (end_global g) us_per_s) as [t|]; [|discriminate].
  simpl. destruct (timeline_events (sorted_by_timestamp vs)) as [evs|] eqn:Hevs;
    [|discriminate].
  simpl. intros [= <-]. simpl. split; [|auto].
  exists (sorted_by_timestamp vs).
  split; [apply sorted_by_timestamp_perm|].
  split; [apply sorted_by_timestamp_sorted|].
  split; [intros k; apply sorted_by_timestamp_stable|].
  now apply timeline_events_each.
Qed.

(** The records with timestamps 5, 2 and 5 seconds. *)
Lemma export_orders_events_witness :
  events_in_order MoreExamples.unordered_records
    (MoreExamples.exported MoreExamples.unordered_records initial_globals).
Proof.
  apply (export_orders_events MoreExamples.unordered_records "trip"
           initial_globals
           (MoreExamples.exported MoreExamples.unordered_records initial_globals)).
  vm_compute. reflexivity.
Defined.

(** The events of those records: 2 seconds first, then the two of 5 seconds
    with the speeds 70 and 90 in the order given. *)
Example unordered_records_events :
  map (fun ev => (timestamp ev, current_speed ev))
    (list_of_timeline_events
       (MoreExamples.exported MoreExamples.unordered_records initial_globals))
  = [(2, 80); (5, 70); (5, 90)]%float.
Proof. vm_compute. reflexivity. Qed.

(** ** What the returned records are *)

(** What the function returns from the outcome of its loop. *)
Lemma check_returned name entries cache thr g :
  returned (check_metadata_file_violations
              {| file_name := name; content := Ok (Some entries) |} cache thr g)
  = match run_loop cache thr (fresh_locals g) entries with
    | Next st => violations st ++ option_list (current_run_best st)
    | Stop _ st => violations st
    end.
Proof.
  rewrite check_on_entries.
  destruct (run_loop cache thr (fresh_locals g) entries); simpl; [|reflexivity].
  apply flush_run_violations.
Qed.

Section RecordInvariant.

Variable cache : OSMSpeedLimitsCache.
Variable violation_threshold : float.

(** A property [I] of the coordinate cache and a relation [R] between a
    sample and the record of its verdict that every verdict keeps. *)
Variable I : gmap string (option speed_limit_info) -> Prop.
Variable R : entry -> violation -> Prop.

(** The samples the pass reads, [P], are all that the verdicts are asked
    about. *)
Variable P : entry -> Prop.
Hypothesis verdict_keeps :
  forall cc e c cc',
    P e -> I cc ->
    classify_sample cache violation_threshold cc e = Ok (c, cc') ->
    I cc' /\ forall v, c = Some v -> R e v.

(** The records in the state are those of samples read so far, in the
    order of the samples. *)
Definition records_from (read : list entry) (st : locals) : Prop :=
  I (coordinate_cache st)
  /\ exists es,
       sublist es read
       /\ Forall2 R es (violations st ++ option_list (current_run_best st)).

Lemma records_from_flush read st e :
  records_from read st ->
  forall st1,
    violations st1 = violations st ->
    current_run_best st1 = current_run_best st ->
    I (coordinate_cache st1) ->
    records_from (read ++ [e]) (flush_run st1).
Proof.
  intros [_ (es & Hsub & Hall)] st1 Hv Hb Hi.
  split; [now rewrite flush_run_cache|].
  exists es. split; [now apply sublist_inserts_r|].
  rewrite flush_run_violations, flush_run_best, Hv, Hb. simpl.
  now rewrite app_nil_r.
Qed.

Lemma records_from_keep_best read st e v :
  records_from read st -> R e v ->
  forall st1,
    violations st1 = violations st ->
    current_run_best st1 = current_run_best st ->
    I (coordinate_cache st1) ->
    records_from (read ++ [e]) (keep_best v st1).
Proof.
  intros [_ (es & Hsub & Hall)] Hr st1 Hv Hb Hi.
  split; [now rewrite keep_best_cache|].
  rewrite keep_best_violations, Hv.
  apply Forall2_app_inv_r in Hall.
  destruct Hall as (es1 & es2 & Hall1 & Hall2 & ->).
  assert (Hnew : exists es,
             sublist es (read ++ [e])
             /\ Forall2 R es (violations st ++ [v])).
  { exists (es1 ++ [e]). split.
    - apply sublist_app; [|reflexivity].
      etransitivity; [|exact Hsub]. now apply sublist_inserts_r.
    - apply Forall2_app; [exact Hall1|]. repeat constructor. exact Hr. }
  assert (Hold : exists es,
             sublist es (read ++ [e])
             /\ Forall2 R es
                  (violations st ++ option_list (current_run_best st1))).
  { exists (es1 ++ es2). split; [now apply sublist_inserts_r|].
    rewrite Hb. now apply Forall2_app. }
  unfold keep_best.
  destruct (current_run_best st1) as [b|] eqn:Hbest; simpl.
  - destruct (PyNum.gt (over_speed v) (over_speed b)); simpl.
    + exact Hnew.
    + rewrite Hbest. exact Hold.
  - exact Hnew.
Qed.

Lemma run_loop_records rest :
  forall read st,
    List.Forall P rest ->
    records_from read st ->
    exists es,
      sublist es (read ++ rest)
      /\ Forall2 R es
           match run_loop cache violation_threshold st rest with
           | Next st' => violations st' ++ option_list (current_run_best st')
           | Stop _ st' => violations st'
           end.
Proof.
  induction rest as [|e rest IH]; intros read st Hrest Hinv; simpl.
  - destruct Hinv as [_ (es & Hsub & Hall)]. exists es.
    split; [now rewrite app_nil_r|exact Hall].
  - inversion Hrest as [|? ? He Hrest']; subst.
    pose proof (loop_body_matches cache violation_threshold st e) as Hm.
    destruct (loop_body cache violation_threshold st e) as [st'|ex st'].
    + assert (Hnext : records_from (read ++ [e]) st').
      { inversion Hm as [| cc st1 Hv Hb Hc Hcls | v cc st1 Hv Hb Hc Hcls]; subst.
        - destruct (verdict_keeps _ _ _ _ He (proj1 Hinv) (eq_sym Hcls)) as [Hi _].
          now apply (records_from_flush read st e Hinv).
        - destruct (verdict_keeps _ _ _ _ He (proj1 Hinv) (eq_sym Hcls)) as [Hi Hr].
          apply (records_from_keep_best read st e v Hinv); auto. }
      destruct (IH (read ++ [e]) st' Hrest' Hnext) as (es & Hsub & Hall).
      exists es. split; [|exact Hall].
      now rewrite <- app_assoc in Hsub.
    + inversion Hm as [ex' st1 Hv | |]; subst.
      destruct Hinv as [_ (es & Hsub & Hall)].
      apply Forall2_app_inv_r in Hall.
      destruct Hall as (es1 & es2 & Hall1 & _ & ->).
      exists es1. split; [|now rewrite Hv].
      apply sublist_inserts_r. etransitivity; [|exact Hsub].
      now apply sublist_inserts_r.
Qed.

End RecordInvariant.

(** The returned records stand in [R] to samples of the file, in the
    samples' order, whenever every verdict on a sample of the file keeps
    [R]. *)
Lemma check_records_on cache thr
    (I : gmap string (option speed_limit_info) -> Prop)
    (R : entry -> violation -> Prop) metadata :
  I ∅ ->
  (forall cc e c cc',
      In e (samples_of metadata) ->
      I cc -> classify_sample cache thr cc e = Ok (c, cc') ->
      I cc' /\ forall v, c = Some v -> R e v) ->
  forall g,
    exists es,
      sublist es (samples_of metadata)
      /\ Forall2 R es
           (returned (check_metadata_file_violations metadata cache thr g)).
Proof.
  destruct metadata as [name [[entries|]|ex]]; unfold samples_of; simpl content;
    intros Hempty Hstep g.
  - rewrite check_returned.
    apply (run_loop_records cache thr I R (fun e => In e entries) Hstep entries []
             (fresh_locals g)).
    + apply List.Forall_forall. auto.
    + split; [exact Hempty|]. exists []. split; [reflexivity|constructor].
  - exists []. split; [reflexivity|constructor].
  - exists []. split; [reflexivity|constructor].
Qed.

Lemma check_records cache thr
    (I : gmap string (option speed_limit_info) -> Prop)
    (R : entry -> violation -> Prop) :
  I ∅ ->
  (forall cc e c cc',
      I cc -> classify_sample cache thr cc e = Ok (c, cc') ->
      I cc' /\ forall v, c = Some v -> R e v) ->
  forall metadata g,
    exists es,
      sublist es (samples_of metadata)
      /\ Forall2 R es
           (returned (check_metadata_file_violations metadata cache thr g)).
Proof.
  intros Hempty Hstep metadata g.
  apply (check_records_on cache thr I R metadata Hempty).
  intros cc e c cc' _. apply Hstep.
Qed.

Lemma Forall2_right {A B : Type} (P : B -> Prop) (l : list A) (k : list B) :
  Forall2 (fun _ y => P y) l k -> Forall P k.
Proof. induction 1; constructor; assumption. Qed.

Lemma classify_sample_record cache thr cc e v cc' :
  classify_sample cache thr cc e = Ok (Some v, cc') ->
  record_of_sample thr e v.
Proof.
  unfold classify_sample, record_of_sample.
  destruct (latitude e) as [lat|]; [|discriminate].
  destruct (longitude e) as [lon|]; [|discriminate].
  destruct (displaySpeed e) as [speed|]; [|discriminate].
  destruct (PyNum.le speed 0) eqn:Hpos; [discriminate|].
  destruct (resolve_through_cache cache cc lat lon) as [[info cc1]|];
    [|discriminate].
  simpl. destruct info as [i|]; [|discriminate].
  destruct (PyNum.gt speed _) eqn:Hgt; [|discriminate].
  unfold build_violation, bind.
  destruct (if default 0 (timestampUs e) =? 0 then _ else _) as [ts_s|];
    [|discriminate].
  intros [= <- _]. exists lat, lon, speed. simpl. auto 15.
Qed.

(** ** Limits that the index supplies as numbers *)










(** X2.  Whatever the file and the index, and also when an exception cuts
    the pass, the returned records are records of samples of the file, in the
    order of the samples and no two from one sample: each carries its
    sample's timestamp, coordinates, speed, altitude and compass angle; the
    sample's speed is above zero and above the record's limit plus the
    threshold; [over_speed] is speed minus limit and [over_speed_percent] is
    [over_speed] over the limit times 100, or 0 when the limit is not above
    zero. *)
Theorem check_records_come_from_samples cache thr metadata g :
  exists es,
    sublist es (samples_of metadata)
    /\ Forall2 (record_of_sample thr) es
         (returned (check_metadata_file_violations metadata cache thr g)).
Proof.
  apply (check_records cache thr (fun _ => True) (record_of_sample thr)).
  - exact Logic.I.
  - intros cc e c cc' _ Hcls. split; [exact Logic.I|].
    intros v ->. exact (classify_sample_record cache thr cc e v cc' Hcls).
Qed.

(** ** The limit of a record *)

Lemma parse_speed_limit_some_text raw limit :
  parse_speed_limit raw = Some limit -> limit_parsed raw limit.
Proof.
  destruct raw as [| | | |s]; try discriminate.
  intros H. exists s. split; [reflexivity|]. split; [|exact H].
  intros ->. discriminate.
Qed.

Lemma first_parsed_limit candidates info :
  first_parsed candidates = Some info ->
  limit_parsed (maxspeed_raw info) (maxspeed info)
  /\ exists c, In c candidates /\ info = info_of c (maxspeed info).
Proof.
  induction candidates as [|c rest IH]; simpl; [discriminate|].
  destruct (parse_speed_limit (get (f_maxspeed c))) as [limit|] eqn:Hparse.
  - intros [= <-]. simpl. split.
    + now apply parse_speed_limit_some_text.
    + exists c. split; [now left|reflexivity].
  - intros H. destruct (IH H) as [Hl (c' & Hin & Hc')].
    split; [exact Hl|]. exists c'. split; [now right|exact Hc'].
Qed.

Lemma find_speed_limit_limit cache lat lon precision info :
  find_speed_limit_for_coordinate cache lat lon precision = Ok (Some info) ->
  limit_parsed (maxspeed_raw info) (maxspeed info).
Proof.
  unfold find_speed_limit_for_coordinate.
  destruct (get_speed_limit cache lat lon precision) as [exact|]; [|discriminate].
  simpl. destruct (first_parsed exact) as [i|] eqn:Hexact.
  - intros [= <-]. now apply (first_parsed_limit exact).
  - destruct (get_speed_limit_nearest cache lat lon nearest_max_distance)
      as [near|]; [|discriminate].
    simpl. intros [= Hnear]. now apply (first_parsed_limit near).
Qed.

Lemma classify_sample_limit cache thr cc e c cc' :
  cache_limits_parsed cc ->
  classify_sample cache thr cc e = Ok (c, cc') ->
  cache_limits_parsed cc'
  /\ forall v, c = Some v -> limit_parsed (speed_limit_raw v) (speed_limit_kmh v).
Proof.
  intros Hcc. unfold classify_sample.
  destruct (latitude e) as [lat|];
    [|intros [= <- <-]; split; [exact Hcc|discriminate]].
  destruct (longitude e) as [lon|];
    [|intros [= <- <-]; split; [exact Hcc|discriminate]].
  destruct (displaySpeed e) as [speed|];
    [|intros [= <- <-]; split; [exact Hcc|discriminate]].
  destruct (PyNum.le speed 0);
    [intros [= <- <-]; split; [exact Hcc|discriminate]|].
  unfold resolve_through_cache.
  assert (Hres : forall info cc1,
             match cc !! coord_key lat lon with
             | Some info0 => Ok (info0, cc)
             | None =>
                 bind (find_speed_limit_for_coordinate cache lat lon 6)
                   (fun info0 => Ok (info0, <[coord_key lat lon := info0]> cc))
             end = Ok (info, cc1) ->
             cache_limits_parsed cc1
             /\ forall i, info = Some i ->
                          limit_parsed (maxspeed_raw i) (maxspeed i)).
  { intros info cc1.
    destruct (cc !! coord_key lat lon) as [stored|] eqn:Hk.
    - intros [= <- <-]. split; [exact Hcc|]. intros i ->. exact (Hcc _ _ Hk).
    - destruct (find_speed_limit_for_coordinate cache lat lon 6) as [found|] eqn:Hf;
        [|discriminate].
      simpl. intros [= <- <-].
      assert (Hfound : forall i, found = Some i ->
                                 limit_parsed (maxspeed_raw i) (maxspeed i)).
      { intros i ->. exact (find_speed_limit_limit cache lat lon 6 i Hf). }
      split; [|exact Hfound].
      intros k i. destruct (decide (coord_key lat lon = k)) as [<-|Hne].
      + rewrite lookup_insert_eq. intros [= ->]. now apply Hfound.
      + rewrite lookup_insert_ne by exact Hne. apply Hcc. }
  destruct (match cc !! coord_key lat lon with
            | Some info0 => Ok (info0, cc)
            | None => _
            end) as [[info cc1]|]; [|discriminate].
  destruct (Hres info cc1 eq_refl) as [Hcc1 Hinfo].
  simpl. destruct info as [i|];
    [|intros [= <- <-]; split; [exact Hcc1|discriminate]].
  destruct (PyNum.gt speed _);
    [|intros [= <- <-]; split; [exact Hcc1|discriminate]].
  unfold build_violation, bind.
  destruct (if default 0 (timestampUs e) =? 0 then _ else _) as [ts_s|];
    [|discriminate].
  intros [= <- <-]. split; [exact Hcc1|].
  intros v [= <-]. simpl. now apply Hinfo.
Qed.

(** X3.  In every returned record the raw limit is a non-empty text and the
    numeric limit is what [parse_speed_limit] gives for that text, also for
    a limit that came from the coordinate cache. *)
Theorem check_records_limit_parsed cache thr metadata g :
  Forall (fun v => limit_parsed (speed_limit_raw v) (speed_limit_kmh v))
    (returned (check_metadata_file_violations metadata cache thr g)).
Proof.
  destruct (check_records cache thr cache_limits_parsed
              (fun _ v => limit_parsed (speed_limit_raw v) (speed_limit_kmh v)))
    with (metadata := metadata) (g := g) as (es & _ & Hall).
  - intros k info Hk. rewrite lookup_empty in Hk. discriminate.
  - intros cc e c cc'. apply classify_sample_limit.
  - exact (Forall2_right _ es _ Hall).
Qed.

(** ** The export of what the check returns *)

Lemma int_true_div_zero : PyNum.int_true_div 0 us_per_s = Ok 0%float.
Proof. vm_compute. reflexivity. Qed.

(** The seconds of a record are its microseconds divided. *)
Lemma classify_sample_seconds cache thr cc e v cc' :
  classify_sample cache thr cc e = Ok (Some v, cc') ->
  PyNum.int_true_div (timestamp_us v) us_per_s = Ok (timestamp_s v).
Proof.
  unfold classify_sample.
  destruct (latitude e) as [lat|]; [|discriminate].
  destruct (longitude e) as [lon|]; [|discriminate].
  destruct (displaySpeed e) as [speed|]; [|discriminate].
  destruct (PyNum.le speed 0); [discriminate|].
  destruct (resolve_through_cache cache cc lat lon) as [[info cc1]|];
    [|discriminate].
  simpl. destruct info as [i|]; [|discriminate].
  destruct (PyNum.gt speed _); [|discriminate].
  unfold build_violation, bind.
  destruct (Z.eqb_spec (default 0 (timestampUs e)) 0) as [Hz|Hnz].
  - intros [= <- _]. simpl. rewrite Hz. exact int_true_div_zero.
  - destruct (PyNum.int_true_div (default 0 (timestampUs e)) us_per_s)
      as [ts_s|] eqn:Hdiv; [|discriminate].
    intros [= <- _]. simpl. exact Hdiv.
Qed.

Lemma timeline_events_of_records l :
  Forall (fun v => PyNum.int_true_div (timestamp_us v) us_per_s
                   = Ok (timestamp_s v)) l ->
  timeline_events l = Ok (map event_of_record l).
Proof.
  induction 1 as [|v l Hv _ IH]; simpl; [reflexivity|].
  unfold timeline_event_of. rewrite Hv. simpl. rewrite IH. reflexivity.
Qed.

(** X4.  The export of what the check returned for a file never fails on an
    event: it fails exactly when [end_global] in seconds is too large for a
    float, and otherwise writes the document whose events are the returned
    records sorted by timestamp, each with the [timestamp_s] that the record
    already holds. *)
Theorem export_of_checked_file cache thr metadata g file_id :
  export_violations_to_json
    (returned (check_metadata_file_violations metadata cache thr g)) file_id
    (globals_after (check_metadata_file_violations metadata cache thr g))
  = match PyNum.int_true_div
            (end_global
               (globals_after (check_metadata_file_violations metadata cache thr g)))
            us_per_s with
    | Ok seconds =>
        Ok {| doc_id := file_id; start_time := 0; end_time := seconds; score := 0;
              list_of_timeline_events :=
                map event_of_record
                  (sorted_by_timestamp
                     (returned
                        (check_metadata_file_violations metadata cache thr g))) |}
    | Raise ex => Raise ex
    end.
Proof.
  unfold export_violations_to_json.
  destruct (PyNum.int_true_div _ us_per_s) as [seconds|]; [|reflexivity].
  simpl. rewrite timeline_events_of_records; [reflexivity|].
  destruct (check_records cache thr (fun _ => True)
              (fun _ v => PyNum.int_true_div (timestamp_us v) us_per_s
                          = Ok (timestamp_s v)))
    with (metadata := metadata) (g := g) as (es & _ & Hall).
  - exact Logic.I.
  - intros cc e c cc' _ Hcls. split; [exact Logic.I|].
    intros v ->. exact (classify_sample_seconds cache thr cc e v cc' Hcls).
  - apply Forall2_right in Hall.
    rewrite <- (sorted_by_timestamp_perm _). exact Hall.
Qed.

(** ** The counts that are printed *)

Lemma flush_run_count st : entry_count (flush_run st) = entry_count st.
Proof. unfold flush_run. destruct (current_run_best st); reflexivity. Qed.

Lemma keep_best_count v st : entry_count (keep_best v st) = entry_count st.
Proof.
  unfold keep_best. destruct (current_run_best st); [|reflexivity].
  destruct (PyNum.gt _ _); reflexivity.
Qed.

Lemma judge_entry_count thr e ts lat lon speed info st :
  entry_count (outcome_state (judge_entry thr e ts lat lon speed info st))
  = entry_count st.
Proof.
  unfold judge_entry. destruct info as [i|]; simpl.
  - destruct (PyNum.gt speed _); simpl.
    + destruct (build_violation _ _ _ _ _ _); simpl;
        [apply keep_best_count|reflexivity].
    + apply flush_run_count.
  - apply flush_run_count.
Qed.

Lemma loop_body_count cache thr st e :
  entry_count (outcome_state (loop_body cache thr st e))
  = (entry_count st + if has_required_fields e then 1 else 0)%nat.
Proof.
  unfold loop_body, has_required_fields.
  destruct (latitude e) as [lat|];
    [|simpl; rewrite flush_run_count; simpl; lia].
  destruct (longitude e) as [lon|];
    [|simpl; rewrite flush_run_count; simpl; lia].
  destruct (displaySpeed e) as [speed|];
    [|simpl; rewrite flush_run_count; simpl; lia].
  destruct (PyNum.le speed 0); [simpl; rewrite flush_run_count; simpl; lia|].
  simpl coordinate_cache.
  destruct (coordinate_cache st !! coord_key lat lon) as [info|].
  - rewrite judge_entry_count. simpl. lia.
  - destruct (find_speed_limit_for_coordinate cache lat lon 6); simpl; [|lia].
    rewrite judge_entry_count. simpl. lia.
Qed.

Lemma run_loop_count cache thr entries :
  forall st st',
    run_loop cache thr st entries = Next st' ->
    entry_count st'
    = (entry_count st + List.length (List.filter has_required_fields entries))%nat.
Proof.
  induction entries as [|e rest IH]; intros st st'; simpl.
  - intros [= <-]. lia.
  - pose proof (loop_body_count cache thr st e) as Hc.
    destruct (loop_body cache thr st e) as [st1|]; [|discriminate].
    intros Hrun. rewrite (IH st1 st' Hrun). simpl in Hc. rewrite Hc.
    destruct (has_required_fields e); simpl; lia.
Qed.

Lemma record_of_sample_fields thr e v :
  record_of_sample thr e v -> has_required_fields e = true.
Proof.
  intros (lat & lon & speed & Hlat & Hlon & Hspeed & _).
  unfold has_required_fields. now rewrite Hlat, Hlon, Hspeed.
Qed.

Lemma sublist_all_filter {A : Type} (P : A -> bool) (l1 l2 : list A) :
  sublist l1 l2 -> List.Forall (fun x => P x = true) l1 ->
  (List.length l1 <= List.length (List.filter P l2))%nat.
Proof.
  induction 1 as [|x l1 l2 _ IH|x l1 l2 _ IH]; simpl; intros Hall.
  - lia.
  - inversion Hall as [|? ? Hx Hall']; subst. rewrite Hx. simpl.
    specialize (IH Hall'). lia.
  - specialize (IH Hall). destruct (P x); simpl; lia.
Qed.

(** X5.  When the pass ends normally and prints its counts, the first is the
    number of samples that have latitude, longitude and displaySpeed (also
    those that stand still or have no limit), the second is the number of
    returned records, and the second is at most the first. *)
Theorem processed_counts cache thr g name entries n k :
  printed (check_metadata_file_violations
             {| file_name := name; content := Ok (Some entries) |} cache thr g)
  = Processed n k ->
  n = List.length (List.filter has_required_fields entries)
  /\ k = List.length
           (returned (check_metadata_file_violations
                        {| file_name := name; content := Ok (Some entries) |}
                        cache thr g))
  /\ (k <= n)%nat.
Proof.
  intros Hprinted.
  assert (Hn : n = List.length (List.filter has_required_fields entries)
               /\ k = List.length
                        (returned (check_metadata_file_violations
                                     {| file_name := name;
                                        content := Ok (Some entries) |}
                                     cache thr g))).
  { revert Hprinted. rewrite check_on_entries.
    destruct (run_loop cache thr (fresh_locals g) entries) as [st|ex st] eqn:Hrun;
      cbn [printed returned]; [|discriminate].
    intros [= <- <-]. rewrite flush_run_count.
    rewrite (run_loop_count cache thr entries _ _ Hrun). simpl. auto. }
  destruct Hn as [Hn Hk]. split; [exact Hn|]. split; [exact Hk|].
  destruct (check_records cache thr (fun _ => True) (record_of_sample thr))
    with (metadata := {| file_name := name; content := Ok (Some entries) |})
         (g := g) as (es & Hsub & Hall).
  - exact Logic.I.
  - intros cc e c cc' _ Hcls. split; [exact Logic.I|].
    intros v ->. exact (classify_sample_record cache thr cc e v cc' Hcls).
  - rewrite Hk, Hn, <- (Forall2_length _ _ _ Hall).
    apply sublist_all_filter; [exact Hsub|].
    clear -Hall. induction Hall as [|e v es vs Hr _ IH]; constructor.
    + exact (record_of_sample_fields thr e v Hr).
    + exact IH.
Qed.

(** On [Examples.trip_with_gap]: four of the five samples have the three
    keys, and two records are returned. *)
Lemma processed_counts_witness :
  4%nat = List.length (List.filter has_required_fields Examples.trip_with_gap)
  /\ 2%nat = List.length
               (returned (check_metadata_file_violations
                            (Examples.file Examples.trip_with_gap)
                            Examples.index50 10 initial_globals))
  /\ (2 <= 4)%nat.
Proof.
  apply (processed_counts Examples.index50 10 initial_globals "trip"
           Examples.trip_with_gap 4 2).
  vm_compute. reflexivity.
Defined.

(** ** A sample that does not move *)

(** X6.  A sample with its three keys whose speed is zero or below is
    counted, closes an open run, and is judged without any lookup: the cache
    and the log of resolver calls stay as they were, and the iteration is the
    same with any index, so a failing index cannot stop the file there. *)
Theorem standing_sample_needs_no_lookup cache thr st e lat lon speed :
  latitude e = Some lat -> longitude e = Some lon ->
  displaySpeed e = Some speed -> PyNum.le speed 0 = true ->
  (forall other, loop_body other thr st e = loop_body cache thr st e)
  /\ exists st',
       loop_body cache thr st e = Next st'
       /\ violations st' = violations st ++ option_list (current_run_best st)
       /\ current_run_best st' = None
       /\ coordinate_cache st' = coordinate_cache st
       /\ resolver_calls st' = resolver_calls st
       /\ entry_count st' = S (entry_count st).
Proof.
  intros Hlat Hlon Hspeed Hle.
  assert (Hbody : forall index,
             loop_body index thr st e
             = Next (flush_run
                       (count_entry
                          (set_glob
                             (track_globals (default 0 (timestampUs e)) (glob st))
                             st)))).
  { intros index. unfold loop_body. now rewrite Hlat, Hlon, Hspeed, Hle. }
  split; [intros other; now rewrite !Hbody|].
  eexists. split; [apply Hbody|].
  rewrite flush_run_violations, flush_run_best, flush_run_cache,
    flush_run_calls, flush_run_count.
  simpl. auto 10.
Qed.

(** A sample at speed 0 met while a run is open. *)
Lemma standing_sample_needs_no_lookup_witness :
  (forall other,
      loop_body other 10 Examples.running MoreExamples.standing
      = loop_body Examples.failing_index 10 Examples.running MoreExamples.standing)
  /\ exists st',
       loop_body Examples.failing_index 10 Examples.running MoreExamples.standing
       = Next st'
       /\ violations st'
          = violations Examples.running
              ++ option_list (current_run_best Examples.running)
       /\ current_run_best st' = None
       /\ coordinate_cache st' = coordinate_cache Examples.running
       /\ resolver_calls st' = resolver_calls Examples.running
       /\ entry_count st' = S (entry_count Examples.running).
Proof.
  apply (standing_sample_needs_no_lookup Examples.failing_index 10
           Examples.running MoreExamples.standing 44.1 20.4 0);
    vm_compute; reflexivity.
Defined.

(** ** White space around the text of a limit *)

Module SpaceFacts.

Import TextSpec.

#[local] Arguments String.append !_ _ / : simpl nomatch.

Lemma lstrip_spaces l :
  all_chars PyStr.is_space l = true -> PyStr.lstrip l = "".
Proof.
  induction l as [|c l IH]; simpl; [reflexivity|].
  intros [Hc Hl]%andb_prop. rewrite Hc. exact (IH Hl).
Qed.

Lemma rstrip_spaces r :
  all_chars PyStr.is_space r = true -> PyStr.rstrip r = "".
Proof.
  induction r as [|c r IH]; simpl; [reflexivity|].
  intros [Hc Hr]%andb_prop. rewrite (IH Hr), Hc. reflexivity.
Qed.

Lemma lstrip_app_spaces l s :
  all_chars PyStr.is_space l = true ->
  PyStr.lstrip (l ++ s) = PyStr.lstrip s.
Proof.
  induction l as [|c l IH]; simpl; [reflexivity|].
  intros [Hc Hl]%andb_prop. rewrite Hc. exact (IH Hl).
Qed.

Lemma rstrip_app_spaces s r :
  all_chars PyStr.is_space r = true ->
  PyStr.rstrip (s ++ r) = PyStr.rstrip s.
Proof.
  intros Hr. induction s as [|c s IH]; simpl.
  - exact (rstrip_spaces r Hr).
  - rewrite IH. reflexivity.
Qed.

Lemma strip_app_spaces s r :
  all_chars PyStr.is_space r = true ->
  PyStr.strip (s ++ r) = PyStr.strip s.
Proof.
  intros Hr. unfold PyStr.strip. induction s as [|c s IH].
  - simpl String.append. rewrite (lstrip_spaces r Hr). reflexivity.
  - simpl String.append. simpl PyStr.lstrip.
    destruct (PyStr.is_space c); [exact IH|].
    exact (rstrip_app_spaces (String c s) r Hr).
Qed.

Lemma strip_between_spaces l s r :
  all_chars PyStr.is_space l = true ->
  all_chars PyStr.is_space r = true ->
  PyStr.strip (l ++ s ++ r) = PyStr.strip s.
Proof.
  intros Hl Hr. rewrite <- (strip_app_spaces s r Hr).
  unfold PyStr.strip. now rewrite (lstrip_app_spaces l (s ++ r) Hl).
Qed.

End SpaceFacts.

(** X7.  White space before and after the text of a limit does not change
    what [parse_speed_limit] makes of it: neither the code of the table that
    is recognised, nor the number, nor the conversion from mph. *)
Theorem parse_speed_limit_ignores_outer_space l s r :
  TextSpec.all_chars PyStr.is_space l = true ->
  TextSpec.all_chars PyStr.is_space r = true ->
  parse_speed_limit (VStr (l ++ s ++ r)) = parse_speed_limit (VStr s).
Proof.
  intros Hl Hr. rewrite !parse_speed_limit_string.
  now rewrite (SpaceFacts.strip_between_spaces l s r Hl Hr).
Qed.

(** The code of an urban road between a blank and a line end. *)
Lemma parse_speed_limit_ignores_outer_space_witness :
  parse_speed_limit (VStr (" " ++ "RS:urban" ++ String "010" ""))
  = parse_speed_limit (VStr "RS:urban").
Proof.
  apply (parse_speed_limit_ignores_outer_space " " "RS:urban" (String "010" ""));
    vm_compute; reflexivity.
Defined.

(** ** [main] and the names of its files *)

Module PathFacts.

#[local] Arguments String.append !_ _ / : simpl nomatch.

Lemma length_app (a b : string) :
  String.length (a ++ b) = (String.length a + String.length b)%nat.
Proof. induction a as [|c a IH]; simpl; [reflexivity|now rewrite IH]. Qed.

Lemma substring_skip (a b : string) m :
  substring (String.length a) m (a ++ b) = substring 0 m b.
Proof. induction a as [|c a IH]; simpl; [reflexivity|exact IH]. Qed.

Lemma substring_all (b : string) : substring 0 (String.length b) b = b.
Proof. induction b as [|c b IH]; simpl; [reflexivity|now rewrite IH]. Qed.

Lemma substring_prefix (a b : string) :
  substring 0 (String.length a) (a ++ b) = a.
Proof.
  induction a as [|c a IH]; simpl; [destruct b; reflexivity|now rewrite IH].
Qed.

Lemma endswith_app (a suffix : string) :
  PyPath.endswith (a ++ suffix) suffix = true.
Proof.
  unfold PyPath.endswith. rewrite length_app.
  replace (String.length suffix <=? String.length a + String.length suffix)%nat
    with true by (symmetry; apply Nat.leb_le; lia).
  replace (String.length a + String.length suffix - String.length suffix)%nat
    with (String.length a) by lia.
  rewrite substring_skip, substring_all. apply String.eqb_refl.
Qed.

Lemma rfind_dot_from_json (s : string) :
  forall i found,
    PyPath.rfind_dot_from i (s ++ ".json") found = Some (i + String.length s)%nat.
Proof.
  induction s as [|c s IH]; intros i found; simpl.
  - f_equal. lia.
  - rewrite IH. f_equal. lia.
Qed.

Lemma stem_json (s : string) : s <> "" -> PyPath.stem (s ++ ".json") = s.
Proof.
  intros Hs. unfold PyPath.stem, PyPath.rfind_dot.
  rewrite rfind_dot_from_json, length_app.
  change (0 + String.length s)%nat with (String.length s).
  assert (0 < String.length s)%nat as Hlen
      by (destruct s; [congruence|simpl; lia]).
  destruct (Nat.ltb_spec 0 (String.length s)) as [_|Hge]; [|lia].
  destruct (Nat.ltb_spec (String.length s)
              (String.length s + String.length ".json" - 1)) as [_|Hge];
    [|simpl in Hge; lia].
  apply substring_prefix.
Qed.

End PathFacts.

Lemma export_length vs file_id g doc :
  export_violations_to_json vs file_id g = Ok doc ->
  List.length (list_of_timeline_events doc) = List.length vs
  /\ doc_id doc = file_id.
Proof.
  unfold export_violations_to_json.
  destruct (PyNum.int_true_div (end_global g) us_per_s) as [seconds|]; simpl;
    [|discriminate].
  destruct (timeline_events (sorted_by_timestamp vs)) as [evs|] eqn:Hevs; simpl;
    [|discriminate].
  intros [= <-]. simpl. split; [|reflexivity].
  rewrite <- (Forall2_length _ _ _ (timeline_events_each _ _ Hevs)).
  symmetry. apply Permutation_length, sorted_by_timestamp_perm.
Qed.

Lemma main_files_summary cache files :
  forall g written total processed written' processed' total',
    main_files cache files g written total processed
    = Summary written' processed' total' ->
    processed' = processed
    /\ exists new,
         written' = written ++ new
         /\ map fst new = map output_name files
         /\ map (fun p => doc_id (snd p)) new
            = map (fun f => PyPath.stem (file_name f)) files
         /\ total'
            = (total
               + list_sum
                   (map (fun p => List.length (list_of_timeline_events (snd p)))
                      new))%nat.
Proof.
  induction files as [|f rest IH];
    intros g written total processed written' processed' total'; simpl.
  - intros [= <- <- <-]. split; [reflexivity|].
    exists []. rewrite app_nil_r. simpl. auto with arith.
  - destruct (export_violations_to_json _ _ _) as [doc|ex] eqn:Hexp;
      [|discriminate].
    intros Hrest. apply IH in Hrest as (-> & new & -> & Hnames & Hids & ->).
    destruct (export_length _ _ _ _ Hexp) as [Hlen Hid].
    split; [reflexivity|].
    exists ((output_name f, doc) :: new). rewrite <- app_assoc. simpl.
    rewrite Hnames, Hids, Hid, Hlen. repeat split; try reflexivity. lia.
Qed.

(** X8.  When [main] reaches its summary, it has written one document for
    each listed file whose name does not end in [_violations.json], in the
    order of the listing: the document of a file is named by the file's stem
    followed by [_violations.json] and has the stem as its id.  The number of
    files in the summary is the number of these files, the total is the number
    of events in all the documents, and every written name ends in
    [_violations.json], the suffix of the names that [main] leaves out. *)
Theorem main_summary loaded all_json_files g written processed total :
  main loaded all_json_files g = Summary written processed total ->
  let metadata_files := List.filter is_metadata_file all_json_files in
  processed = List.length metadata_files
  /\ map fst written = map output_name metadata_files
  /\ map (fun p => doc_id (snd p)) written
     = map (fun f => PyPath.stem (file_name f)) metadata_files
  /\ total
     = list_sum
         (map (fun p => List.length (list_of_timeline_events (snd p))) written)
  /\ List.Forall
       (fun p => PyPath.endswith (fst p) "_violations.json" = true) written.
Proof.
  unfold main. destruct loaded as [cache|]; [|discriminate].
  destruct (List.filter is_metadata_file all_json_files) as [|f rest] eqn:Hfiles;
    [discriminate|].
  intros Hmain. apply main_files_summary in Hmain
    as (-> & new & -> & Hnames & Hids & ->).
  cbv zeta. simpl app in *. repeat split; try assumption; try reflexivity.
  apply List.Forall_forall. intros p Hp.
  apply (in_map fst) in Hp. rewrite Hnames in Hp.
  apply in_map_iff in Hp as (f' & <- & _).
  apply PathFacts.endswith_app.
Qed.

(** On [MoreExamples.listing]: the file [a_violations.json] is left out,
    [a.json] gives two events and [b.json] gives two. *)
Lemma main_summary_witness :
  let metadata_files := List.filter is_metadata_file MoreExamples.listing in
  2%nat = List.length metadata_files
  /\ map fst MoreExamples.written_listing = map output_name metadata_files
  /\ map (fun p => doc_id (snd p)) MoreExamples.written_listing
     = map (fun f => PyPath.stem (file_name f)) metadata_files
  /\ 4%nat
     = list_sum
         (map (fun p => List.length (list_of_timeline_events (snd p)))
            MoreExamples.written_listing)
  /\ List.Forall
       (fun p => PyPath.endswith (fst p) "_violations.json" = true)
       MoreExamples.written_listing.
Proof.
  apply (main_summary (Some Examples.index50) MoreExamples.listing
           initial_globals MoreExamples.written_listing 2 4).
  vm_compute. reflexivity.
Defined.

(** X9.  A metadata file [s.json] with [s] not empty has the stem [s]: its
    document is written under the name [s_violations.json] and carries [s] as
    its id, and that name is one that [main] leaves out of its inputs. *)
Theorem output_of_json_file (s : string) (c : result (option (list entry))) :
  s <> "" ->
  let f := {| file_name := s ++ ".json"; content := c |} in
  PyPath.stem (file_name f) = s
  /\ output_name f = (s ++ "_violations.json")%string
  /\ is_metadata_file {| file_name := output_name f; content := c |} = false.
Proof.
  intros Hs. cbv zeta. unfold output_name, is_metadata_file. cbn [file_name].
  rewrite (PathFacts.stem_json s Hs), PathFacts.endswith_app. auto.
Qed.

(** The file [trip.json]. *)
Lemma output_of_json_file_witness :
  let f := {| file_name := "trip" ++ ".json"; content := Ok None |} in
  PyPath.stem (file_name f) = "trip"
  /\ output_name f = ("trip" ++ "_violations.json")%string
  /\ is_metadata_file {| file_name := output_name f; content := Ok None |} = false.
Proof.
  apply (output_of_json_file "trip" (Ok None)). discriminate.
Defined.

(** ** The module-level variables after a pass *)

Lemma run_loop_glob cache thr entries :
  forall st st',
    run_loop cache thr st entries = Next st' ->
    glob st'
    = fold_left (fun g e => track_globals (timestamp_of e) g) entries (glob st).
Proof.
  induction entries as [|e rest IH]; intros st st'; simpl.
  - now intros [= <-].
  - pose proof (loop_body_glob cache thr st e) as Hg.
    destruct (loop_body cache thr st e) as [st1|]; [|discriminate].
    intros Hrun. rewrite (IH st1 st' Hrun). simpl in Hg. now rewrite Hg.
Qed.

Lemma tracked_end entries e :
  forall g,
    last entries = Some e ->
    end_global (fold_left (fun g e => track_globals (timestamp_of e) g) entries g)
    = timestamp_of e.
Proof.
  induction entries as [|x rest _] using rev_ind; intros g; [discriminate|].
  rewrite last_snoc, fold_left_app. now intros [= ->].
Qed.

Lemma tracked_start entries :
  forall g,
    start_global
      (fold_left (fun g e => track_globals (timestamp_of e) g) entries g)
    = if start_global g =? 0 then first_nonzero (map timestamp_of entries)
      else start_global g.
Proof.
  induction entries as [|e rest IH]; intros g; simpl.
  - destruct (Z.eqb_spec (start_global g) 0); congruence.
  - rewrite IH. simpl.
    destruct (Z.eqb_spec (start_global g) 0) as [H0|Hn0].
    + reflexivity.
    + destruct (Z.eqb_spec (start_global g) 0); [contradiction|reflexivity].
Qed.

(** X10.  After a pass that ends normally over a file with at least one
    sample, [end_global] is the timestamp of the file's last sample (0 when
    that sample has no [timestampUs]), whatever was there before and whether
    or not the sample has coordinates; [start_global] keeps a value that is
    not 0 and otherwise becomes the first timestamp of the file that is not 0
    (0 when there is none). *)
Theorem globals_after_pass cache thr g name entries n k e :
  printed (check_metadata_file_violations
             {| file_name := name; content := Ok (Some entries) |} cache thr g)
  = Processed n k ->
  last entries = Some e ->
  let after :=
    globals_after (check_metadata_file_violations
                     {| file_name := name; content := Ok (Some entries) |}
                     cache thr g) in
  end_global after = timestamp_of e
  /\ start_global after
     = (if start_global g =? 0 then first_nonzero (map timestamp_of entries)
        else start_global g).
Proof.
  rewrite check_on_entries. intros Hprinted Hlast. cbv zeta.
  destruct (run_loop cache thr (fresh_locals g) entries) as [st|ex st] eqn:Hrun;
    cbn [printed globals_after] in *; [|discriminate].
  rewrite flush_run_glob, (run_loop_glob cache thr entries _ _ Hrun).
  cbn [glob fresh_locals].
  split; [exact (tracked_end entries e g Hlast)|apply tracked_start].
Qed.

(** [Examples.trip] read after a file that left 7 and 9 seconds behind. *)
Lemma globals_after_pass_witness :
  let after :=
    globals_after (check_metadata_file_violations
                     {| file_name := "trip"; content := Ok (Some Examples.trip) |}
                     Examples.index50 10
                     {| start_global := 7000000; end_global := 9000000 |}) in
  end_global after = timestamp_of (Examples.sample 6000000 44.3 20.5 80)
  /\ start_global after
     = (if 7000000 =? 0 then first_nonzero (map timestamp_of Examples.trip)
        else 7000000).
Proof.
  apply (globals_after_pass Examples.index50 10
           {| start_global := 7000000; end_global := 9000000 |} "trip"
           Examples.trip 6 2 (Examples.sample 6000000 44.3 20.5 80));
    vm_compute; reflexivity.
Defined.

(** ** The calls of the resolver, one by one *)

Lemma loop_body_first_call cache thr st e st1 seen :
  cache_holds (coordinate_cache st) seen ->
  loop_body cache thr st e = Next st1 ->
  match lookup_site e with
  | None =>
      coordinate_cache st1 = coordinate_cache st
      /\ resolver_calls st1 = resolver_calls st
  | Some p =>
      if bool_decide (key_of p ∈ seen)
      then coordinate_cache st1 = coordinate_cache st
           /\ resolver_calls st1 = resolver_calls st
      else (exists info,
               coordinate_cache st1 = <[key_of p := info]> (coordinate_cache st))
           /\ resolver_calls st1 = resolver_calls st ++ [p]
  end.
Proof.
  intros Hseen. unfold loop_body, lookup_site.
  destruct (latitude e) as [lat|];
    [|intros [= <-]; now rewrite flush_run_cache, flush_run_calls].
  destruct (longitude e) as [lon|];
    [|intros [= <-]; now rewrite flush_run_cache, flush_run_calls].
  destruct (displaySpeed e) as [speed|];
    [|intros [= <-]; now rewrite flush_run_cache, flush_run_calls].
  destruct (PyNum.le speed 0);
    [intros [= <-]; now rewrite flush_run_cache, flush_run_calls|].
  simpl coordinate_cache. unfold key_of. cbn [fst snd].
  destruct (coordinate_cache st !! coord_key lat lon) as [info|] eqn:Hcc.
  - rewrite bool_decide_true by (apply Hseen; rewrite Hcc; discriminate).
    intros Hj.
    pose proof (judge_entry_frame thr e (default 0 (timestampUs e)) lat lon speed
                  info
                  (count_entry
                     (set_glob
                        (track_globals (default 0 (timestampUs e)) (glob st)) st)))
      as [Hc Hr].
    rewrite Hj in Hc, Hr. exact (conj Hc Hr).
  - rewrite bool_decide_false by (intros Hin; apply Hseen in Hin; contradiction).
    destruct (find_speed_limit_for_coordinate cache lat lon 6) as [info|];
      [|discriminate].
    intros Hj.
    match type of Hj with
    | judge_entry ?t ?e' ?ts ?la ?lo ?sp ?i ?s = _ =>
        pose proof (judge_entry_frame t e' ts la lo sp i s) as [Hc Hr]
    end.
    rewrite Hj in Hc, Hr. split; [exists info; exact Hc|exact Hr].
Qed.

Lemma cache_holds_insert cc seen k info :
  cache_holds cc seen -> cache_holds (<[k := info]> cc) (k :: seen).
Proof.
  intros Hseen k'. rewrite elem_of_cons.
  destruct (decide (k = k')) as [<-|Hne].
  - rewrite lookup_insert_eq. split; [auto|discriminate].
  - rewrite lookup_insert_ne by exact Hne. rewrite (Hseen k').
    split; [auto|]. intros [Heq|Hin]; [congruence|exact Hin].
Qed.

Lemma run_loop_first_calls cache thr entries :
  forall st seen st',
    cache_holds (coordinate_cache st) seen ->
    run_loop cache thr st entries = Next st' ->
    resolver_calls st'
    = resolver_calls st ++ first_of_each_key seen (omap lookup_site entries).
Proof.
  induction entries as [|e rest IH]; intros st seen st' Hseen; simpl.
  - intros [= <-]. now rewrite app_nil_r.
  - destruct (loop_body cache thr st e) as [st1|] eqn:Hbody; [|discriminate].
    intros Hrun.
    pose proof (loop_body_first_call cache thr st e st1 seen Hseen Hbody) as Hstep.
    destruct (lookup_site e) as [p|]; simpl.
    + destruct (bool_decide (key_of p ∈ seen)).
      * destruct Hstep as [Hc Hr]. rewrite <- Hr.
        apply (IH st1 seen st'); [now rewrite Hc|exact Hrun].
      * destruct Hstep as [[info Hc] Hr].
        rewrite (IH st1 (key_of p :: seen) st');
          [|rewrite Hc; now apply cache_holds_insert|exact Hrun].
        rewrite Hr, <- app_assoc. reflexivity.
    + destruct Hstep as [Hc Hr]. rewrite <- Hr.
      apply (IH st1 seen st'); [now rewrite Hc|exact Hrun].
Qed.

(** X11.  In a pass that ends normally the resolver is called exactly at the
    first sample of each cache key, among the samples that have their three
    keys and a speed above zero, in the order of the stream and with that
    sample's own coordinates; no other sample causes a call. *)
Theorem resolver_called_at_first_of_each_key cache thr g name entries n k :
  printed (check_metadata_file_violations
             {| file_name := name; content := Ok (Some entries) |} cache thr g)
  = Processed n k ->
  calls (check_metadata_file_violations
           {| file_name := name; content := Ok (Some entries) |} cache thr g)
  = first_of_each_key [] (omap lookup_site entries).
Proof.
  rewrite check_on_entries.
  destruct (run_loop cache thr (fresh_locals g) entries) as [st|ex st] eqn:Hrun;
    cbn [printed calls]; [|discriminate].
  intros _. rewrite flush_run_calls.
  rewrite (run_loop_first_calls cache thr entries (fresh_locals g) [] st);
    [reflexivity| |exact Hrun].
  intros key. cbn [coordinate_cache fresh_locals]. rewrite lookup_empty.
  split; [congruence|]. intros Hin. inversion Hin.
Qed.

(** [Examples.trip] has six samples at four places. *)
Lemma resolver_called_at_first_of_each_key_witness :
  calls (check_metadata_file_violations
           {| file_name := "trip"; content := Ok (Some Examples.trip) |}
           Examples.index50 10 initial_globals)
  = first_of_each_key [] (omap lookup_site Examples.trip).
Proof.
  apply (resolver_called_at_first_of_each_key Examples.index50 10
           initial_globals "trip" Examples.trip 6 2).
  vm_compute. reflexivity.
Defined.

(** ** A stream in the order of its timestamps *)

Lemma sublist_all {A : Type} (P : A -> Prop) (l1 l2 : list A) :
  sublist l1 l2 -> List.Forall P l2 -> List.Forall P l1.
Proof.
  induction 1 as [|x l1 l2 _ IH|x l1 l2 _ IH]; intros Hall.
  - constructor.
  - inversion Hall; subst. constructor; auto.
  - inversion Hall; subst. auto.
Qed.

Lemma sublist_sorted (l1 l2 : list Z) :
  sublist l1 l2 -> StronglySorted Z.le l2 -> StronglySorted Z.le l1.
Proof.
  induction 1 as [|x l1 l2 Hsub IH|x l1 l2 _ IH]; intros Hs.
  - constructor.
  - inversion Hs as [|? ? Hs' Hall]; subst.
    constructor; [exact (IH Hs')|exact (sublist_all _ _ _ Hsub Hall)].
  - inversion Hs; subst. auto.
Qed.

Lemma sublist_map {A B : Type} (f : A -> B) (l1 l2 : list A) :
  sublist l1 l2 -> sublist (map f l1) (map f l2).
Proof. induction 1; simpl; constructor; assumption. Qed.

(** Sorting leaves a list that is in order as it is. *)
Lemma sorted_by_timestamp_fixed l :
  StronglySorted Z.le (map timestamp_us l) -> sorted_by_timestamp l = l.
Proof.
  induction l as [|v l IH]; simpl; intros Hs; [reflexivity|].
  inversion Hs as [|? ? Hs' Hall]; subst. rewrite (IH Hs').
  destruct l as [|w l']; simpl; [reflexivity|].
  inversion Hall as [|? ? Hle _]; subst.
  now rewrite (proj2 (Z.leb_le _ _) Hle).
Qed.

Lemma records_timestamps thr es vs :
  Forall2 (record_of_sample thr) es vs ->
  map timestamp_us vs = map timestamp_of es.
Proof.
  induction 1 as [|e v es vs Hr _ IH]; simpl; [reflexivity|].
  destruct Hr as (lat & lon & speed & _ & _ & _ & Hts & _).
  unfold timestamp_of. now rewrite Hts, IH.
Qed.

(** X12.  When the samples of a file come with timestamps that never
    decrease, the sort of the export changes nothing: the events of the
    document are the returned records one by one, in the order of the stream.
    Samples without [timestampUs] count as 0. *)
Theorem events_follow_sorted_stream cache thr metadata g file_id :
  StronglySorted Z.le (map timestamp_of (samples_of metadata)) ->
  let out := check_metadata_file_violations metadata cache thr g in
  sorted_by_timestamp (returned out) = returned out
  /\ export_violations_to_json (returned out) file_id (globals_after out)
     = match PyNum.int_true_div (end_global (globals_after out)) us_per_s with
       | Ok seconds =>
           Ok {| doc_id := file_id; start_time := 0; end_time := seconds;
                 score := 0;
                 list_of_timeline_events := map event_of_record (returned out) |}
       | Raise ex => Raise ex
       end.
Proof.
  intros Hsorted. cbv zeta.
  destruct (check_records cache thr (fun _ => True)
              (fun e v =>
                 record_of_sample thr e v
                 /\ PyNum.int_true_div (timestamp_us v) us_per_s
                    = Ok (timestamp_s v)))
    with (metadata := metadata) (g := g) as (es & Hsub & Hall).
  { exact Logic.I. }
  { intros cc e c cc' _ Hcls. split; [exact Logic.I|].
    intros v ->. split.
    - exact (classify_sample_record cache thr cc e v cc' Hcls).
    - exact (classify_sample_seconds cache thr cc e v cc' Hcls). }
  assert (Hfixed :
            sorted_by_timestamp
              (returned (check_metadata_file_violations metadata cache thr g))
            = returned (check_metadata_file_violations metadata cache thr g)).
  { apply sorted_by_timestamp_fixed.
    rewrite (records_timestamps thr es).
    - exact (sublist_sorted _ _ (sublist_map timestamp_of _ _ Hsub) Hsorted).
    - eapply Forall2_impl; [exact Hall|]. now intros e v [Hr _]. }
  split; [exact Hfixed|].
  unfold export_violations_to_json.
  destruct (PyNum.int_true_div _ us_per_s) as [seconds|]; [|reflexivity].
  simpl. rewrite Hfixed. rewrite timeline_events_of_records; [reflexivity|].
  clear -Hall. induction Hall as [|e v es vs [_ Hv] _ IH]; constructor; assumption.
Qed.

(** [Examples.trip], whose timestamps run from 1 to 6 seconds. *)
Lemma events_follow_sorted_stream_witness :
  let out :=
    check_metadata_file_violations (Examples.file Examples.trip)
      Examples.index50 10 initial_globals in
  sorted_by_timestamp (returned out) = returned out
  /\ export_violations_to_json (returned out) "trip" (globals_after out)
     = match PyNum.int_true_div (end_global (globals_after out)) us_per_s with
       | Ok seconds =>
           Ok {| doc_id := "trip"; start_time := 0; end_time := seconds;
                 score := 0;
                 list_of_timeline_events := map event_of_record (returned out) |}
       | Raise ex => Raise ex
       end.
Proof.
  apply (events_follow_sorted_stream Examples.index50 10
           (Examples.file Examples.trip) initial_globals "trip").
  vm_compute. repeat constructor; discriminate.
Defined.
